(** * deepseek-engineer: the local execution engine

    A shallow embedding of [r1.py] and [rate_limiter.py]: the path sandbox
    ([normalize_path]), the snippet patcher ([apply_diff_edit]), the file
    writer ([create_file]), the directory ingester
    ([add_directory_to_conversation]), the conversation log
    ([ensure_file_in_context], the rebuild at the head of
    [stream_openai_response], [trim_conversation_history]) and the
    [RateLimiter].

    Python [str] is modelled as [string], Python [int] as [Z], the time of
    the clock as a number of nanoseconds in [Z], exceptions as a sum type,
    the module-level [conversation_history] and the file system as
    explicit state; what the operating system answers, and where it
    refuses to read or to write, is a record of functions, [OS]. Paths and
    the ends of lines are those of a POSIX system. *)

From Stdlib Require Import ZArith List Bool Arith Lia Sorted.
From Stdlib Require Import Strings.String Strings.Ascii Numbers.DecimalString.
Import ListNotations.

Open Scope string_scope.
Open Scope list_scope.

(** ** Exceptions and results *)

(** Each exception carries the text that [str(e)] returns. *)
Inductive exn : Type :=
| ValueError (msg : string)
| FileNotFoundError (msg : string)
| OSError (msg : string)
| IndexError (msg : string)
| OverflowError (msg : string)
| UnboundLocalError (msg : string).

Definition exn_str (e : exn) : string :=
  match e with
  | ValueError m | FileNotFoundError m | OSError m | IndexError m
  | OverflowError m | UnboundLocalError m => m
  end.

(** [isinstance(e, OSError)]: [FileNotFoundError] is a subclass. *)
Definition is_OSError (e : exn) : bool :=
  match e with
  | FileNotFoundError _ | OSError _ => true
  | _ => false
  end.

(** [isinstance(e, ValueError)]: the error of a decoding is one. *)
Definition is_ValueError (e : exn) : bool :=
  match e with
  | ValueError _ => true
  | _ => false
  end.


Inductive result (A : Type) : Type :=
| Ok (a : A)
| Raise (e : exn).

Arguments Ok {A} a.
Arguments Raise {A} e.

(** ** Python [str] operations

    A [string] stands for a [str] whose code points are below 256. *)

Module PyStr.

Definition nl : string := String (ascii_of_nat 10) EmptyString.

(** [str(n)] for a non-negative [int]. *)
Definition of_nat (n : nat) : string := NilEmpty.string_of_uint (Nat.to_uint n).

(** [s[n:]] *)
Fixpoint drop (n : nat) (s : string) : string :=
  match n, s with
  | O, _ => s
  | S _, EmptyString => EmptyString
  | S k, String _ r => drop k r
  end.

(** [s.startswith(p)] *)
Definition startswith (s p : string) : bool := String.prefix p s.

(** [s.endswith(p)] *)
Definition endswith (s p : string) : bool :=
  String.eqb (drop (String.length s - String.length p) s) p
  && Nat.leb (String.length p) (String.length s).

(** [sub in s] *)
Fixpoint contains (sub s : string) : bool :=
  String.prefix sub s ||
  match s with
  | EmptyString => false
  | String _ r => contains sub r
  end.

(** The scan of [s.count(sub)] for a non-empty [sub]: matches are taken
    left to right and the scan resumes after the end of each match, so
    the matches counted never overlap. [skip] is the number of characters
    still covered by the last match. *)
Fixpoint count_scan (sub : string) (skip : nat) (s : string) : nat :=
  match s with
  | EmptyString => 0
  | String _ r =>
      match skip with
      | S k => count_scan sub k r
      | O => if String.prefix sub s
             then S (count_scan sub (String.length sub - 1) r)
             else count_scan sub 0 r
      end
  end.

(** [s.count(sub)]; the empty string is counted [len(s) + 1] times. *)
Definition count (s sub : string) : nat :=
  match sub with
  | EmptyString => S (String.length s)
  | _ => count_scan sub 0 s
  end.

(** [s.replace(old, new, 1)]: the leftmost match is replaced. *)
Fixpoint replace_first (old new s : string) : string :=
  if String.prefix old s then new ++ drop (String.length old) s
  else match s with
       | EmptyString => EmptyString
       | String c r => String c (replace_first old new r)
       end.

Definition is_space (c : ascii) : bool :=
  let n := nat_of_ascii c in
  Nat.eqb n 32 || (Nat.leb 9 n && Nat.leb n 13) || (Nat.leb 28 n && Nat.leb n 31)
  || Nat.eqb n 133 || Nat.eqb n 160.

Fixpoint lstrip (s : string) : string :=
  match s with
  | EmptyString => EmptyString
  | String c r => if is_space c then lstrip r else s
  end.

Fixpoint rstrip (s : string) : string :=
  match s with
  | EmptyString => EmptyString
  | String c r =>
      match rstrip r with
      | EmptyString => if is_space c then EmptyString else String c EmptyString
      | r' => String c r'
      end
  end.

(** [s.strip()] *)
Definition strip (s : string) : string := rstrip (lstrip s).

Definition lower_ascii (c : ascii) : ascii :=
  let n := nat_of_ascii c in
  if (Nat.leb 65 n && Nat.leb n 90)
     || (Nat.leb 192 n && Nat.leb n 222 && negb (Nat.eqb n 215))
  then ascii_of_nat (n + 32) else c.

(** What reading in text mode does to the ends of lines: a carriage
    return, with the line feed that follows it when there is one, is read
    as one line feed. *)
Fixpoint universal_newlines (s : string) : string :=
  match s with
  | EmptyString => EmptyString
  | String c r =>
      if Nat.eqb (nat_of_ascii c) 13 then
        match r with
        | String c' r' =>
            if Nat.eqb (nat_of_ascii c') 10
            then String c' (universal_newlines r')
            else String (ascii_of_nat 10) (universal_newlines r)
        | EmptyString => String (ascii_of_nat 10) EmptyString
        end
      else String c (universal_newlines r)
  end.

(** [s.lower()] *)
Fixpoint lower (s : string) : string :=
  match s with
  | EmptyString => EmptyString
  | String c r => String (lower_ascii c) (lower r)
  end.

(** The number of positions of [s] at which [sub] occurs, overlapping
    occurrences included: the text-level notion of "occurs [n] times". *)
Fixpoint occ (sub s : string) : nat :=
  (if String.prefix sub s then 1 else 0) +
  match s with
  | EmptyString => 0
  | String _ r => occ sub r
  end.

End PyStr.

(** ** SnippetPatcher: the pure core of [apply_diff_edit] *)

Definition SnippetNotFound : exn := ValueError "Original snippet not found".

Definition AmbiguousSnippet (occurrences : nat) : exn :=
  ValueError ("Ambiguous edit: " ++ PyStr.of_nat occurrences ++ " matches").

(** Lines 235-243 of [apply_diff_edit]: count, reject, substitute. *)
Definition snippet_apply (content original_snippet new_snippet : string)
  : result string :=
  let occurrences := PyStr.count content original_snippet in
  if Nat.eqb occurrences 0 then Raise SnippetNotFound
  else if Nat.ltb 1 occurrences then Raise (AmbiguousSnippet occurrences)
  else Ok (PyStr.replace_first original_snippet new_snippet content).


(** ** pathlib on POSIX *)

Module PosixPath.

(** A pure path: its root (the empty string, one slash or two slashes) and
    its segments. *)
Record t : Type := mk { root : string; segs : list string }.

Fixpoint split_on (sep : ascii) (s : string) : list string :=
  match s with
  | EmptyString => [EmptyString]
  | String c r =>
      if Ascii.eqb c sep then EmptyString :: split_on sep r
      else match split_on sep r with
           | [] => [String c EmptyString]
           | h :: rest => String c h :: rest
           end
  end.

Fixpoint join_with (sep : string) (l : list string) : string :=
  match l with
  | [] => EmptyString
  | [x] => x
  | x :: rest => x ++ sep ++ join_with sep rest
  end.

(** POSIX keeps exactly two leading slashes apart from one; three or more
    are one. *)
Definition root_of (s : string) : string :=
  if String.prefix "///" s then "/"
  else if String.prefix "//" s then "//"
  else if String.prefix "/" s then "/"
  else "".

Definition keep_seg (x : string) : bool :=
  negb (String.eqb x "") && negb (String.eqb x ".").

(** [Path(s)]: empty segments and [.] segments are dropped, [..] is kept. *)
Definition parse (s : string) : t :=
  mk (root_of s) (filter keep_seg (split_on "/" s)).

(** [p.parts] *)
Definition parts (p : t) : list string :=
  (if String.eqb (root p) "" then [] else [root p]) ++ segs p.

(** [p.is_absolute()] *)
Definition is_absolute (p : t) : bool := negb (String.eqb (root p) "").

(** [str(p)] *)
Definition to_string (p : t) : string :=
  match root p, segs p with
  | EmptyString, [] => "."
  | r, l => r ++ join_with "/" l
  end.

(** [p.absolute()] with the current directory [cwd]. *)
Definition absolute (cwd : string) (p : t) : t :=
  if is_absolute p then p
  else let c := parse cwd in mk (root c) (segs c ++ segs p).

(** [..] against the segments already resolved (kept in reverse). *)
Fixpoint collapse (acc : list string) (l : list string) : list string :=
  match l with
  | [] => rev acc
  | x :: rest =>
      if String.eqb x ".." then collapse (tl acc) rest
      else collapse (x :: acc) rest
  end.

(** [os.path.realpath] on a file system that has no symbolic link and
    where every directory named exists: the resolution is lexical, and the
    root of an absolute path is one slash. *)
Definition lexical_realpath (s : string) : result string :=
  let p := parse s in
  Ok (to_string (mk (if String.eqb (root p) "" then "" else "/")
                    (collapse [] (segs p)))).

(** Component-wise containment: [w] is [p] or an ancestor of [p]. *)
Fixpoint list_prefix (w p : list string) : bool :=
  match w, p with
  | [], _ => true
  | _ :: _, [] => false
  | x :: w', y :: p' => String.eqb x y && list_prefix w' p'
  end.

Definition within (w p : string) : bool :=
  list_prefix (parts (parse w)) (parts (parse p)).

End PosixPath.

(** ** The operating system and the session state *)

(** What becomes of [mkdir], [open(p, "w")] and [write]: the content is
    written; or nothing is, [mkdir] or [open] having raised; or [open] has
    emptied the file and [write] raises with [rest] in it. *)
Inductive WriteEffect : Type :=
| Written
| NotWritten (e : exn)
| Interrupted (rest : string) (e : exn).

(** Why [open(p, "r", encoding="utf-8").read()] fails when the file is
    not simply missing: the system refuses (a directory, a directory of the
    way that does not exist, no permission), or the bytes are not UTF-8. *)
Inductive ReadFailure : Type :=
| Refused (msg : string)
| Undecodable (msg : string).

(** The exception of each: [OSError], and [UnicodeDecodeError], which is a
    [ValueError]. *)
Definition exn_of_failure (f : ReadFailure) : exn :=
  match f with
  | Refused msg => OSError msg
  | Undecodable msg => ValueError msg
  end.

(** What the code asks of the operating system. [realpath] resolves [.],
    [..] and symbolic links of an absolute path; [getsize] and [read_bytes]
    are [os.path.getsize] and [open(p, 'rb').read(n)], [None] when they
    raise [OSError]. [read_failure p] is the failure of a reading at the
    path [p] as the code names it, [write_effect p c] what becomes of the
    writing of [c] at the canonical path [p]. *)
Record OS : Type := {
  getcwd : string;
  realpath : string -> result string;
  getsize : string -> option Z;
  read_bytes : string -> nat -> option string;
  read_failure : string -> option ReadFailure;
  write_effect : string -> string -> WriteEffect
}.

Inductive Role : Type := system | user | assistant.

Definition Role_eqb (a b : Role) : bool :=
  match a, b with
  | system, system | user, user | assistant, assistant => true
  | _, _ => false
  end.

Record Message : Type := { role : Role; content : string }.

(** The regular files, by canonical path, and the module-level
    [conversation_history]. *)
Record World : Type := {
  fs : string -> option string;
  conversation_history : list Message
}.

Definition append_message (w : World) (m : Message) : World :=
  {| fs := fs w; conversation_history := conversation_history w ++ [m] |}.

Definition write_file (w : World) (p c : string) : World :=
  {| fs := fun q => if String.eqb q p then Some c else fs w q;
     conversation_history := conversation_history w |}.

Definition file_marker (normalized_path : string) : string :=
  "Content of file '" ++ normalized_path ++ "'".

Definition file_content_message (normalized_path content : string) : Message :=
  {| role := system;
     content := file_marker normalized_path ++ ":" ++ PyStr.nl ++ PyStr.nl ++ content |}.

Section Engine.

Variable os : OS.

(** [str(Path(path_str).absolute().resolve())]: what the name denotes. *)
Definition resolve (path_str : string) : result string :=
  realpath os
    (PosixPath.to_string (PosixPath.absolute (getcwd os) (PosixPath.parse path_str))).

(** ** PathSandbox *)

Definition normalize_path (path_str : string) : result string :=
  let wrap (e : exn) : result string :=
    Raise (ValueError ("Invalid path: " ++ path_str ++ " - " ++ exn_str e)) in
  match resolve path_str with
  | Raise e => wrap e
  | Ok path =>
      match realpath os (PosixPath.to_string (PosixPath.parse (getcwd os))) with
      | Raise e => wrap e
      | Ok workspace =>
          if negb (PyStr.startswith path workspace)
          then wrap (ValueError ("Invalid path: " ++ path_str
                                   ++ " is outside workspace directory"))
          else Ok path
      end
  end.

(** ** File reading and writing *)

(** [open(file_path, "r", encoding="utf-8")] and [f.read()]: the opening
    fails when the system refuses it or the file is not there, the reading
    when the bytes of the file do not decode; the text read has its ends
    of lines translated. *)
Definition read_local_file (w : World) (file_path : string) : result string :=
  match read_failure os file_path with
  | Some (Refused msg) => Raise (exn_of_failure (Refused msg))
  | decoding =>
      match resolve file_path with
      | Raise e => Raise (OSError (exn_str e))
      | Ok p =>
          match fs w p with
          | None => Raise (FileNotFoundError
                             ("[Errno 2] No such file or directory: '"
                                ++ file_path ++ "'"))
          | Some c =>
              match decoding with
              | Some f => Raise (exn_of_failure f)
              | None => Ok (PyStr.universal_newlines c)
              end
          end
      end
  end.

Inductive WriteOutcome : Type :=
| Created
| Skipped
| Failed (e : exn).

(** [answer] is what the prompt returns; it is read only when
    [require_confirmation] holds. *)
Definition create_file (w : World) (path content : string)
    (require_confirmation : bool) (answer : string) : World * WriteOutcome :=
  let file_path := PosixPath.parse path in
  if existsb (fun part => PyStr.startswith part "~") (PosixPath.parts file_path)
  then (w, Failed (ValueError "Home directory references not allowed"))
  else
    match normalize_path (PosixPath.to_string file_path) with
    | Raise e => (w, Failed e)
    | Ok normalized_path =>
        if (Z.of_nat (String.length content) >? 5000000)%Z
        then (w, Failed (ValueError "File content exceeds 5MB size limit"))
        else
          let user_confirm :=
            if require_confirmation then PyStr.lower (PyStr.strip answer) else "y" in
          if negb (String.eqb user_confirm "y") && negb (String.eqb user_confirm "")
          then (w, Skipped)
          else
            match write_effect os normalized_path content with
            | NotWritten e => (w, Failed e)
            | Interrupted rest e => (write_file w normalized_path rest, Failed e)
            | Written =>
                let w1 := write_file w normalized_path content in
                let w2 := append_message w1
                            {| role := system;
                               content := "File operation: Created/updated file at '"
                                            ++ PosixPath.to_string file_path ++ "'" |} in
                match normalize_path (PosixPath.to_string file_path) with
                | Raise e => (w2, Failed e)
                | Ok normalized_path' =>
                    (append_message w2
                       (file_content_message normalized_path' content),
                     Created)
                end
            end
    end.

(** [Raised e]: [e] leaves the function. *)
Inductive EditOutcome : Type :=
| Applied
| Rejected (e : exn)
| Unreadable (e : exn)
| Raised (e : exn).

Definition apply_diff_edit (w : World) (path original_snippet new_snippet : string)
  : World * EditOutcome :=
  match read_local_file w path with
  | Raise e =>
      if is_OSError e then (w, Unreadable e)
      else if is_ValueError e
      then (w, Raised (UnboundLocalError
                         "cannot access local variable 'content' where it is not associated with a value"))
      else (w, Raised e)
  | Ok content =>
      match snippet_apply content original_snippet new_snippet with
      | Raise e => (w, Rejected e)
      | Ok updated_content =>
          let w1 := fst (create_file w path updated_content false "") in
          (append_message w1
             {| role := system;
                content := "File operation: Applied diff edit to '" ++ path ++ "'" |},
           Applied)
      end
  end.

(** ** ConversationContext *)

Definition marker_in_history (marker : string) (h : list Message) : bool :=
  existsb (fun msg => PyStr.contains marker (content msg)) h.

(** A [ValueError], of [normalize_path] or of the decoding, is not handled
    here and reaches the caller; an [OSError] of the read gives [False]. *)
Definition ensure_file_in_context (w : World) (file_path : string)
  : World * result bool :=
  match normalize_path file_path with
  | Raise e => (w, Raise e)
  | Ok normalized_path =>
      match read_local_file w normalized_path with
      | Raise e => if is_OSError e then (w, Ok false) else (w, Raise e)
      | Ok content =>
          if negb (marker_in_history (file_marker normalized_path)
                                     (conversation_history w))
          then (append_message w (file_content_message normalized_path content),
                Ok true)
          else (w, Ok true)
      end
  end.

End Engine.

Definition is_file_context (msg : Message) : bool :=
  Role_eqb (role msg) system && PyStr.contains "Content of file '" (content msg).

Definition is_user_or_assistant (msg : Message) : bool :=
  Role_eqb (role msg) user || Role_eqb (role msg) assistant.

(** The head of [stream_openai_response], lines 472-493: the clean-up of
    the log before a request. [conversation_history[0]] of an empty log
    raises [IndexError]. *)
Definition rebuild_for_request (h : list Message) (user_message : string)
  : result (list Message) :=
  match h with
  | [] => Raise (IndexError "list index out of range")
  | first :: rest =>
      let system_msgs := [first] in
      let file_context := filter is_file_context rest in
      let user_assistant_pairs :=
        filter (fun msg => negb (is_file_context msg) && is_user_or_assistant msg) rest in
      let user_assistant_pairs :=
        if negb (Nat.eqb (Nat.modulo (List.length user_assistant_pairs) 2) 0)
        then removelast user_assistant_pairs
        else user_assistant_pairs in
      Ok ((system_msgs ++ file_context) ++ user_assistant_pairs
            ++ [{| role := user; content := user_message |}])
  end.

(** [l[-n:]] for [n > 0]. *)
Definition last_n {A : Type} (n : nat) (l : list A) : list A :=
  skipn (List.length l - n) l.

Definition trim_conversation_history (h : list Message) : list Message :=
  let max_pairs := 10 in
  let system_msgs := filter (fun msg => Role_eqb (role msg) system) h in
  let other_msgs := filter (fun msg => negb (Role_eqb (role msg) system)) h in
  let other_msgs :=
    if Nat.ltb (max_pairs * 2) (List.length other_msgs)
    then last_n (max_pairs * 2) other_msgs
    else other_msgs in
  system_msgs ++ other_msgs.

(** ** DirectoryIngester *)

Definition excluded_files : list string :=
  [ ".DS_Store"; "Thumbs.db"; ".gitignore"; ".python-version";
    "uv.lock"; ".uv"; "uvenv"; ".uvenv"; ".venv"; "venv";
    "__pycache__"; ".pytest_cache"; ".coverage"; ".mypy_cache";
    "node_modules"; "package-lock.json"; "yarn.lock"; "pnpm-lock.yaml";
    ".next"; ".nuxt"; "dist"; "build"; ".cache"; ".parcel-cache";
    ".turbo"; ".vercel"; ".output"; ".contentlayer";
    "out"; "coverage"; ".nyc_output"; "storybook-static";
    ".env"; ".env.local"; ".env.development"; ".env.production";
    ".git"; ".svn"; ".hg"; "CVS" ].

Definition excluded_extensions : list string :=
  [ ".png"; ".jpg"; ".jpeg"; ".gif"; ".ico"; ".svg"; ".webp"; ".avif";
    ".mp4"; ".webm"; ".mov"; ".mp3"; ".wav"; ".ogg";
    ".zip"; ".tar"; ".gz"; ".7z"; ".rar";
    ".exe"; ".dll"; ".so"; ".dylib"; ".bin";
    ".pdf"; ".doc"; ".docx"; ".xls"; ".xlsx"; ".ppt"; ".pptx";
    ".pyc"; ".pyo"; ".pyd"; ".egg"; ".whl";
    ".uv"; ".uvenv";
    ".db"; ".sqlite"; ".sqlite3"; ".log";
    ".idea"; ".vscode";
    ".map"; ".chunk.js"; ".chunk.css";
    ".min.js"; ".min.css"; ".bundle.js"; ".bundle.css";
    ".cache"; ".tmp"; ".temp";
    ".ttf"; ".otf"; ".woff"; ".woff2"; ".eot" ].

(** [x in s] for a set of strings. *)
Definition str_in (x : string) (s : list string) : bool :=
  existsb (String.eqb x) s.

(** The suffix of [s] that starts at its last dot. *)
Fixpoint from_last_dot (s : string) : option string :=
  match s with
  | EmptyString => None
  | String c r =>
      match from_last_dot r with
      | Some e => Some e
      | None => if Ascii.eqb c "." then Some s else None
      end
  end.

Fixpoint all_dots (s : string) : bool :=
  match s with
  | EmptyString => true
  | String c r => Ascii.eqb c "." && all_dots r
  end.

(** [os.path.splitext] on a file name: leading dots start no extension. *)
Definition splitext (file : string) : string * string :=
  match from_last_dot file with
  | None => (file, "")
  | Some e =>
      let stem := String.substring 0 (String.length file - String.length e) file in
      if all_dots stem then (file, "") else (stem, e)
  end.

(** [os.path.join(a, b)] *)
Definition path_join (a b : string) : string :=
  if String.prefix "/" b then b
  else if String.eqb a "" then b
  else if PyStr.endswith a "/" then a ++ b
  else a ++ "/" ++ b.

(** A directory as [os.walk] lists it: its name, the names of its files
    and its sub-directories, in listing order. *)
#[warning="-register-all"]
Inductive dir_tree : Type :=
| Dir (name : string) (files : list string) (subdirs : list dir_tree).

Definition keep_dir (d : string) : bool :=
  negb (PyStr.startswith d ".") && negb (str_in d excluded_files).

(** [os.walk(root)], top-down, with the pruning [dirs[:] = ...] of the loop
    body applied: the [(root, files)] of each directory visited. *)
Fixpoint walk (root : string) (t : dir_tree) : list (string * list string) :=
  match t with
  | Dir _ files subdirs =>
      (root, files) ::
      flat_map (fun d =>
                  match d with
                  | Dir name _ _ =>
                      if keep_dir name then walk (path_join root name) d else []
                  end) subdirs
  end.

Record ScanLimits : Type := {
  max_files : Z;
  max_file_size : Z;
  max_total_size : Z
}.

Definition source_limits : ScanLimits :=
  {| max_files := 1000; max_file_size := 5000000; max_total_size := 50000000 |}.

Record ScanState : Type := {
  skipped_files : list string;
  added_files : list string;
  total_files_processed : Z;
  total_size : Z;
  scan_world : World
}.

Definition skip (st : ScanState) (entry : string) : ScanState :=
  {| skipped_files := skipped_files st ++ [entry];
     added_files := added_files st;
     total_files_processed := total_files_processed st;
     total_size := total_size st;
     scan_world := scan_world st |}.

Section Ingester.

Variable os : OS.
Variable limits : ScanLimits.

Definition is_binary_file (file_path : string) : bool :=
  match read_bytes os file_path 1024 with
  | None => true
  | Some chunk => PyStr.contains (String Ascii.zero EmptyString) chunk
  end.

(** The test that guards both loops. *)
Definition limit_reached (st : ScanState) : bool :=
  (total_files_processed st >=? max_files limits)%Z
  || (total_size st >=? max_total_size limits)%Z.

(** The body of the inner loop, after its [break] test. What is raised in
    the [try] is an [OSError] or a [ValueError]. *)
Definition scan_file (root : string) (st : ScanState) (file : string) : ScanState :=
  if PyStr.startswith file "." || str_in file excluded_files
  then skip st (path_join root file)
  else
    let ext := snd (splitext file) in
    if str_in (PyStr.lower ext) excluded_extensions
    then skip st (path_join root file)
    else
      let full_path := path_join root file in
      match getsize os full_path with
      | None => skip st full_path
      | Some file_size =>
          if (file_size >? max_file_size limits)%Z
          then skip st (full_path ++ " (exceeds size limit)")
          else if (total_size st + file_size >? max_total_size limits)%Z
          then skip st (full_path ++ " (would exceed total size limit)")
          else if is_binary_file full_path
          then skip st full_path
          else
            match normalize_path os full_path with
            | Raise e => skip st (full_path ++ " (" ++ exn_str e ++ ")")
            | Ok normalized_path =>
                match read_local_file os (scan_world st) normalized_path with
                | Raise e =>
                    if is_OSError e then skip st full_path
                    else skip st (full_path ++ " (" ++ exn_str e ++ ")")
                | Ok content =>
                    {| skipped_files := skipped_files st;
                       added_files := added_files st ++ [normalized_path];
                       total_files_processed := (total_files_processed st + 1)%Z;
                       total_size := (total_size st + file_size)%Z;
                       scan_world :=
                         append_message (scan_world st)
                           (file_content_message normalized_path content) |}
                end
            end
      end.

(** The inner loop: [break] once a limit is reached. *)
Fixpoint scan_files (root : string) (files : list string) (st : ScanState)
  : ScanState :=
  match files with
  | [] => st
  | file :: rest =>
      if limit_reached st then st
      else scan_files root rest (scan_file root st file)
  end.

(** The outer loop over [os.walk]: [break] once a limit is reached. *)
Fixpoint scan_walk (visits : list (string * list string)) (st : ScanState)
  : ScanState :=
  match visits with
  | [] => st
  | (root, files) :: rest =>
      if limit_reached st then st
      else scan_walk rest (scan_files root files st)
  end.

Definition scan_start (w : World) : ScanState :=
  {| skipped_files := []; added_files := [];
     total_files_processed := 0; total_size := 0; scan_world := w |}.

(** [tree] is what [os.walk(directory_path)] finds. *)
Definition scan_directory (w : World) (directory_path : string) (tree : dir_tree)
  : ScanState :=
  scan_walk (walk directory_path tree) (scan_start w).

End Ingester.

Definition add_directory_to_conversation (os : OS) (w : World)
    (directory_path : string) (tree : dir_tree) : ScanState :=
  scan_directory os source_limits w directory_path tree.

(** ** RateLimiter *)

(** Time is counted in whole nanoseconds, the unit in which [time.sleep]
    counts; what the rounding of a [float] adds or takes is left out, and
    so are the periods that are no number. *)
Record RateLimiter : Type := {
  max_calls : Z;
  period : Z;
  timestamps : list Z
}.

(** [__init__]: nothing is checked. *)
Definition RateLimiter_init (max_calls period : Z) : RateLimiter :=
  {| max_calls := max_calls; period := period; timestamps := [] |}.

(** The [while] loop of [__call__]. *)
Fixpoint popleft_expired (now period : Z) (ts : list Z) : list Z :=
  match ts with
  | [] => []
  | t0 :: rest =>
      if (now - t0 >? period)%Z then popleft_expired now period rest else ts
  end.

(** The argument of [time.sleep] when the call sleeps. *)
Definition time_to_wait (rl : RateLimiter) (now : Z) : option Z :=
  match popleft_expired now (period rl) (timestamps rl) with
  | t0 :: ts =>
      if (Z.of_nat (List.length (t0 :: ts)) >=? max_calls rl)%Z
      then Some (period rl - (now - t0))%Z
      else None
  | [] => None
  end.

(** The longest sleep that [time.sleep] takes: past it the conversion of
    its argument raises [OverflowError]. *)
Definition sleep_max : Z := 9223372036854775807.

(** [time.sleep(secs)] and the [time.time()] that follows it, begun when
    the clock reads [t]: the clock then reads [t + secs + late], where
    [late] is what the sleep lasted beyond [secs] and what the clock was
    moved by meanwhile. *)
Definition sleep_then_time (t secs late : Z) : result Z :=
  if (secs <? 0)%Z
  then Raise (ValueError "sleep length must be non-negative")
  else if (secs >? sleep_max)%Z
  then Raise (OverflowError "timestamp too large to convert to C _PyTime_t")
  else Ok (t + secs + late)%Z.

(** [__call__]. [t1] is the value of the first [time.time()]; [late] says
    what the second reads, when the call sleeps. *)
Definition RateLimiter_call (rl : RateLimiter) (t1 late : Z)
  : result (RateLimiter * Z) :=
  let now := t1 in
  let ts := popleft_expired now (period rl) (timestamps rl) in
  if (Z.of_nat (List.length ts) >=? max_calls rl)%Z then
    match ts with
    | [] => Raise (IndexError "deque index out of range")
    | t0 :: _ =>
        let time_to_wait := (period rl - (now - t0))%Z in
        match sleep_then_time now time_to_wait late with
        | Raise e => Raise e
        | Ok now =>
            Ok ({| max_calls := max_calls rl; period := period rl;
                   timestamps := ts ++ [now] |}, now)
        end
    end
  else
    Ok ({| max_calls := max_calls rl; period := period rl;
           timestamps := ts ++ [now] |}, now).

(** A sequence of acquisitions, each with its clock readings; the result
    is the limiter and the times admitted, oldest first. *)
Fixpoint acquire_all (rl : RateLimiter) (readings : list (Z * Z))
  : result (RateLimiter * list Z) :=
  match readings with
  | [] => Ok (rl, [])
  | (t1, late) :: rest =>
      match RateLimiter_call rl t1 late with
      | Raise e => Raise e
      | Ok (rl', now) =>
          match acquire_all rl' rest with
          | Raise e => Raise e
          | Ok (rl'', admitted) => Ok (rl'', now :: admitted)
          end
      end
  end.

(** The clock: a reading is never below the one before it, and the reading
    taken after [time.sleep(d)] is more than [d] after the reading taken
    before it. [last] is the latest reading so far. *)
Fixpoint clock_ok (rl : RateLimiter) (last : Z) (readings : list (Z * Z)) : bool :=
  match readings with
  | [] => true
  | (t1, late) :: rest =>
      (last <=? t1)%Z
      && match time_to_wait rl t1 with
         | Some _ => (0 <? late)%Z
         | None => true
         end
      && match RateLimiter_call rl t1 late with
         | Ok (rl', now) => clock_ok rl' now rest
         | Raise _ => true
         end
  end.

(** [clock_ok] from the first reading on. *)
Definition clock_ok_run (rl : RateLimiter) (readings : list (Z * Z)) : bool :=
  match readings with
  | [] => true
  | (t1, _) :: _ => clock_ok rl t1 readings
  end.

(** One second. *)
Definition second : Z := 1000000000.

(** The limiter that [main] builds, [RateLimiter(max_calls=5, period=1)]. *)
Definition main_rate_limiter : RateLimiter := RateLimiter_init 5 second.

(** The timestamps of [ts] whose age at time [t] is within [period]: the
    ones the [while] loop of [__call__] would keep at [t]. *)
Definition within_period (period t : Z) (ts : list Z) : list Z :=
  filter (fun a => negb (t - a >? period)%Z) ts.

(** The times of [admitted] that fall in the interval [[x, x + period]]. *)
Definition admitted_in (period x : Z) (admitted : list Z) : list Z :=
  filter (fun a => (x <=? a)%Z && (a <=? x + period)%Z) admitted.

(** ** A concrete session *)

(** A workspace at [/home/u/proj] on a file system that has no symbolic
    link, where every directory named exists, every file is ten bytes of
    text, and reading and writing raise nothing of their own. *)
Definition demo_os : OS :=
  {| getcwd := "/home/u/proj";
     realpath := PosixPath.lexical_realpath;
     getsize := fun _ => Some 10%Z;
     read_bytes := fun _ n => Some (String.substring 0 n "xxxxxxxxxx");
     read_failure := fun _ => None;
     write_effect := fun _ _ => Written |}.

(** The same, on a disk that is full: a file opened for writing is
    emptied and nothing can be written to it. *)
Definition full_disk_os : OS :=
  {| getcwd := "/home/u/proj";
     realpath := PosixPath.lexical_realpath;
     getsize := fun _ => Some 10%Z;
     read_bytes := fun _ n => Some (String.substring 0 n "xxxxxxxxxx");
     read_failure := fun _ => None;
     write_effect := fun _ _ =>
       Interrupted "" (OSError "[Errno 28] No space left on device") |}.

(** A world with one file, [d/a.py], and an empty log. *)
Definition demo_world : World :=
  {| fs := fun q => if String.eqb q "/home/u/proj/d/a.py"
                    then Some "xxxxxxxxxx" else None;
     conversation_history := [] |}.

(** The messages of the log that carry the content of the file [p]. *)
Definition file_messages_for (p : string) (h : list Message) : list Message :=
  filter (fun msg => Role_eqb (role msg) system
                     && PyStr.startswith (content msg) (file_marker p)) h.

(** The [ValueError] that [normalize_path] raises. *)
Definition is_InvalidPath (e : exn) : bool :=
  match e with
  | ValueError msg => PyStr.startswith msg "Invalid path: "
  | _ => false
  end.

(** ** Notions used in the statements *)

Definition is_system (msg : Message) : bool := Role_eqb (role msg) system.

(** The conversational messages that the rebuild keeps: all of them when
    their number is even, all but the last when it is odd. *)
Definition kept_pairs (l : list Message) : list Message :=
  if negb (Nat.eqb (Nat.modulo (List.length l) 2) 0) then removelast l else l.

(** A sequence of complete exchanges: a user message, then the reply. *)
Inductive exchanges : list Message -> Prop :=
| exchanges_nil : exchanges []
| exchanges_cons (u a : Message) (l : list Message) :
    role u = user -> role a = assistant -> exchanges l ->
    exchanges (u :: a :: l).


(** The two bounds of the ingester. *)
Definition within_limits (limits : ScanLimits) (st : ScanState) : Prop :=
  (total_size st <= max_total_size limits)%Z /\
  (total_files_processed st <= max_files limits)%Z.

(** What holds of the limiter [rl], of the times [log] admitted so far and
    of the latest clock reading [last], for [max_calls = m] and
    [period = p]. *)
Definition window_inv (m p : Z) (rl : RateLimiter) (log : list Z) (last : Z) : Prop :=
  max_calls rl = m /\ period rl = p /\
  (exists old, log = old ++ timestamps rl
               /\ Forall (fun a => (p < last - a)%Z) old) /\
  Forall (fun a => (a <= last)%Z) log /\
  StronglySorted Z.le (timestamps rl) /\
  (forall x, (Z.of_nat (List.length (admitted_in p x log)) <= m)%Z).

(** ** The command surface and the handling of a response *)

(** [try_handle_add_command]. [isdir] is [os.path.isdir] and [listing] what
    [os.walk] finds under a directory. A [ValueError], of [normalize_path]
    or of the decoding, is not an [OSError]: it leaves the function. *)
Definition try_handle_add_command (os : OS) (isdir : string -> bool)
    (listing : string -> dir_tree) (w : World) (user_input : string)
  : result (World * bool) :=
  let prefix := "/add " in
  if PyStr.startswith (PyStr.lower (PyStr.strip user_input)) prefix then
    let path_to_add := PyStr.strip (PyStr.drop (String.length prefix) user_input) in
    match normalize_path os path_to_add with
    | Raise e => Raise e
    | Ok normalized_path =>
        if isdir normalized_path then
          Ok (scan_world (add_directory_to_conversation os w normalized_path
                            (listing normalized_path)), true)
        else
          match read_local_file os w normalized_path with
          | Raise e => if is_OSError e then Ok (w, true) else Raise e
          | Ok content =>
              Ok (append_message w (file_content_message normalized_path content),
                  true)
          end
    end
  else Ok (w, false).

(** The words of [s.split()], with the empty word at each boundary. *)
Fixpoint words_aux (s : string) : list string :=
  match s with
  | EmptyString => [EmptyString]
  | String c r =>
      if PyStr.is_space c then EmptyString :: words_aux r
      else match words_aux r with
           | [] => [String c EmptyString]
           | h :: rest => String c h :: rest
           end
  end.

(** [s.split()] *)
Definition split_ws (s : string) : list string :=
  filter (fun word => negb (String.eqb word "")) (words_aux s).

Fixpoint lstrip_by (f : ascii -> bool) (s : string) : string :=
  match s with
  | EmptyString => EmptyString
  | String c r => if f c then lstrip_by f r else s
  end.

Fixpoint rstrip_by (f : ascii -> bool) (s : string) : string :=
  match s with
  | EmptyString => EmptyString
  | String c r =>
      match rstrip_by f r with
      | EmptyString => if f c then EmptyString else String c EmptyString
      | r' => String c r'
      end
  end.

(** The characters that the [word.strip] of [guess_files_in_message]
    removes: apostrophe, comma, double quote. *)
Definition is_quote_or_comma (c : ascii) : bool :=
  let n := nat_of_ascii c in
  Nat.eqb n 39 || Nat.eqb n 44 || Nat.eqb n 34.

Definition recognized_extensions : list string :=
  [".css"; ".html"; ".js"; ".py"; ".json"; ".md"].

Definition guess_files_in_message (os : OS) (user_message : string) : list string :=
  flat_map
    (fun word =>
       if existsb (fun ext => PyStr.contains ext word) recognized_extensions
          || PyStr.contains "/" word
       then
         let path := rstrip_by is_quote_or_comma (lstrip_by is_quote_or_comma word) in
         match normalize_path os path with
         | Ok normalized_path => [normalized_path]
         | Raise _ => []
         end
       else [])
    (split_ws user_message).

(** [valid_files[path] = content] on a dict kept as an association list. *)
Fixpoint dict_set (d : list (string * string)) (k v : string)
  : list (string * string) :=
  match d with
  | [] => [(k, v)]
  | (k', v') :: rest =>
      if String.eqb k' k then (k, v) :: rest else (k', v') :: dict_set rest k v
  end.

(** [k in d] *)
Definition dict_mem (d : list (string * string)) (k : string) : bool :=
  existsb (fun kv => String.eqb (fst kv) k) d.

(** The loop of [stream_openai_response] over [potential_paths], lines
    498-511: an [OSError] passes to the next path, another exception ends
    the loop and the request, with the log as it then is. *)
Fixpoint add_guessed_files (os : OS) (w : World)
    (valid_files : list (string * string)) (potential_paths : list string)
  : World * result (list (string * string)) :=
  match potential_paths with
  | [] => (w, Ok valid_files)
  | path :: rest =>
      match read_local_file os w path with
      | Ok content =>
          let valid_files := dict_set valid_files path content in
          let w :=
            if negb (marker_in_history (file_marker path) (conversation_history w))
            then append_message w (file_content_message path content)
            else w in
          add_guessed_files os w valid_files rest
      | Raise e =>
          if is_OSError e then add_guessed_files os w valid_files rest
          else (w, Raise e)
      end
  end.

Module FileToEdit.

Record t : Type := mk {
  path : string;
  original_snippet : string;
  new_snippet : string
}.

End FileToEdit.

(** The loop of [stream_openai_response] over [files_to_edit], lines
    586-597: an edit is kept, with its path normalized, when its file is
    among [valid_files] or can be put in context; [OSError] and
    [ValueError] drop the edit, and [ensure_file_in_context] raises no
    other. *)
Fixpoint normalize_edits (os : OS) (w : World)
    (valid_files : list (string * string)) (edits : list FileToEdit.t)
  : World * list FileToEdit.t :=
  match edits with
  | [] => (w, [])
  | edit :: rest =>
      match normalize_path os (FileToEdit.path edit) with
      | Raise _ => normalize_edits os w valid_files rest
      | Ok edit_abs_path =>
          let kept := FileToEdit.mk edit_abs_path
                        (FileToEdit.original_snippet edit)
                        (FileToEdit.new_snippet edit) in
          if dict_mem valid_files edit_abs_path
          then let (w', l) := normalize_edits os w valid_files rest in (w', kept :: l)
          else
            match ensure_file_in_context os w edit_abs_path with
            | (w1, Ok true) =>
                let (w', l) := normalize_edits os w1 valid_files rest in (w', kept :: l)
            | (w1, _) => normalize_edits os w1 valid_files rest
            end
      end
  end.


(** The number of files that a list of visits lists. *)
Definition files_listed (visits : list (string * list string)) : nat :=
  List.length (flat_map snd visits).

(** A world with a file outside the workspace and one under a directory
    named [~] inside it. *)
Definition edit_world : World :=
  {| fs := fun q => if String.eqb q "/etc/hosts" then Some "a b"
                    else if String.eqb q "/home/u/proj/m.py" then Some "x = 1"
                    else None;
     conversation_history := [] |}.

(** [st'] is [st] after [looked] more files were looked at: each was added,
    with a message for its content, or skipped, and no file changed. *)
Definition scan_progress (looked : nat) (st st' : ScanState) : Prop :=
  fs (scan_world st') = fs (scan_world st) /\
  exists new_added new_skipped msgs,
    added_files st' = added_files st ++ new_added /\
    skipped_files st' = skipped_files st ++ new_skipped /\
    conversation_history (scan_world st')
    = conversation_history (scan_world st) ++ msgs /\
    List.length msgs = List.length new_added /\
    Forall (fun msg => is_file_context msg = true) msgs /\
    total_files_processed st'
    = (total_files_processed st + Z.of_nat (List.length new_added))%Z /\
    List.length new_added + List.length new_skipped = looked.

(** The entries of [excluded_extensions] that hold two dots. *)
Definition two_dot_extensions : list string :=
  [".chunk.js"; ".chunk.css"; ".min.js"; ".min.css"; ".bundle.js"; ".bundle.css"].

(* ================================================================== *)
(** * Properties *)

Example count_overlap : PyStr.count "aaa" "aa" = 1.
Proof. reflexivity. Qed.

Example apply_once : snippet_apply "x = 1; y = 2" "y = 2" "y = 3" = Ok "x = 1; y = 3".
Proof. reflexivity. Qed.

Example apply_twice : snippet_apply "abab" "ab" "c" = Raise (AmbiguousSnippet 2).
Proof. reflexivity. Qed.

Example apply_none : snippet_apply "abab" "z" "c" = Raise SnippetNotFound.
Proof. reflexivity. Qed.

(** ** Text lemmas *)

Section Text.

Import PyStr.
Local Open Scope string_scope.

Lemma prefix_app (p r : string) : String.prefix p (p ++ r) = true.
Proof.
  induction p as [|c p IH]; simpl.
  - now destruct r.
  - destruct (ascii_dec c c); [exact IH | congruence].
Qed.

Lemma prefix_split (p s : string) :
  String.prefix p s = true -> s = p ++ drop (String.length p) s.
Proof.
  revert s; induction p as [|c p IH]; intros s H.
  - reflexivity.
  - destruct s as [|d s]; simpl in *; [discriminate|].
    destruct (ascii_dec c d) as [->|]; [|discriminate].
    f_equal. now apply IH.
Qed.

Local Arguments String.prefix : simpl never.

Lemma drop_app (a b : string) : drop (String.length a) (a ++ b) = b.
Proof. induction a; simpl; auto. Qed.

Lemma app_assoc_s (a b c : string) : (a ++ b) ++ c = a ++ b ++ c.
Proof. induction a; simpl; congruence. Qed.

Lemma app_same_length (a a' b b' : string) :
  a ++ b = a' ++ b' -> String.length a = String.length a' -> a = a' /\ b = b'.
Proof.
  revert a'; induction a as [|c a IH]; intros [|c' a'] H L; simpl in *;
    try discriminate; auto.
  injection H as -> H. injection L as L.
  destruct (IH _ H L) as [-> ->]. auto.
Qed.

Lemma occ_unfold (sub s : string) :
  occ sub s = (if String.prefix sub s then 1 else 0)
              + match s with EmptyString => 0 | String _ r => occ sub r end.
Proof. destruct s; reflexivity. Qed.

Lemma occ_app_ge (sub a b : string) : 1 <= occ sub (a ++ sub ++ b).
Proof.
  induction a as [|c a IH].
  - simpl. rewrite occ_unfold, prefix_app. lia.
  - change (String c a ++ sub ++ b) with (String c (a ++ sub ++ b)).
    rewrite occ_unfold. lia.
Qed.

(** Two decompositions of [s] around [sub] with different left parts are
    two occurrences. *)
Lemma occ_two (sub : string) (a a' b b' : string) :
  a ++ sub ++ b = a' ++ sub ++ b' ->
  String.length a < String.length a' ->
  2 <= occ sub (a ++ sub ++ b).
Proof.
  revert a'; induction a as [|c a IH]; intros a' H L.
  - destruct a' as [|c' a']; [simpl in L; lia|].
    simpl in H. simpl. rewrite occ_unfold, prefix_app, H.
    pose proof (occ_app_ge sub a' b'). lia.
  - destruct a' as [|c' a']; [simpl in L; lia|].
    simpl in H. injection H as -> H. simpl in L.
    specialize (IH a' H ltac:(lia)).
    change (String c' a ++ sub ++ b) with (String c' (a ++ sub ++ b)).
    rewrite occ_unfold. lia.
Qed.

Lemma occ_unique (sub s a b a' b' : string) :
  occ sub s = 1 -> s = a ++ sub ++ b -> s = a' ++ sub ++ b' -> a = a' /\ b = b'.
Proof.
  intros H E E'.
  destruct (Nat.lt_trichotomy (String.length a) (String.length a')) as [L|[L|L]].
  - pose proof (occ_two sub a a' b b' ltac:(congruence) L). subst s. lia.
  - assert (X : a ++ sub ++ b = a' ++ sub ++ b') by congruence.
    destruct (app_same_length _ _ _ _ X L) as [-> Y]. split; auto.
    apply app_same_length in Y; tauto.
  - pose proof (occ_two sub a' a b' b ltac:(congruence) L).
    rewrite <- E' in *. lia.
Qed.

Lemma replace_first_unfold (old new s : string) :
  replace_first old new s =
  if String.prefix old s then new ++ drop (String.length old) s
  else match s with
       | EmptyString => EmptyString
       | String c r => String c (replace_first old new r)
       end.
Proof. destruct s; reflexivity. Qed.

(** [replace_first] rewrites the leftmost occurrence and nothing else. *)
Lemma replace_first_split (old new s : string) :
  1 <= occ old s ->
  exists a b, s = a ++ old ++ b /\ replace_first old new s = a ++ new ++ b.
Proof.
  induction s as [|c s IH]; intros H;
    rewrite occ_unfold in H; rewrite replace_first_unfold;
    destruct (String.prefix old _) eqn:P.
  - exists "", (drop (String.length old) ""). split; auto.
    now apply prefix_split.
  - lia.
  - exists "", (drop (String.length old) (String c s)). split; auto.
    now apply prefix_split.
  - destruct (IH ltac:(lia)) as (a & b & E & R).
    exists (String c a), b. split; simpl; now f_equal.
Qed.

Lemma count_scan_le (sub : string) (s : string) :
  forall k, count_scan sub k s <= occ sub s.
Proof.
  induction s as [|c s IH]; intros k; simpl; [lia|].
  destruct k.
  - destruct (String.prefix sub (String c s)).
    + specialize (IH (String.length sub - 1)). lia.
    + specialize (IH 0). lia.
  - specialize (IH k). lia.
Qed.

Lemma occ_empty (s : string) : occ "" s = S (String.length s).
Proof. induction s; simpl in *; auto. Qed.

Lemma count_le_occ (s sub : string) : count s sub <= occ sub s.
Proof.
  unfold count. destruct sub.
  - rewrite occ_empty. lia.
  - apply count_scan_le.
Qed.

Lemma prefix_nonempty_nil (c : ascii) (sub : string) :
  String.prefix (String c sub) "" = false.
Proof. reflexivity. Qed.

Lemma count_scan_pos (sub s : string) :
  sub <> "" -> 1 <= occ sub s -> 1 <= count_scan sub 0 s.
Proof.
  intros N. induction s as [|c s IH]; intros H; simpl in *.
  - destruct sub; [congruence|]. simpl in H. lia.
  - destruct (String.prefix sub (String c s)); [lia|]. apply IH. lia.
Qed.

Lemma count_pos (s sub : string) : 1 <= occ sub s -> 1 <= count s sub.
Proof.
  unfold count. destruct sub as [|c sub]; [lia|].
  apply count_scan_pos. discriminate.
Qed.

(** No position at all exactly when Python counts none. *)
Lemma count_zero_iff (s sub : string) : count s sub = 0 <-> occ sub s = 0.
Proof.
  pose proof (count_le_occ s sub). split; intros H0.
  - destruct (occ sub s) eqn:E; auto.
    pose proof (count_pos s sub ltac:(lia)). lia.
  - lia.
Qed.

Lemma count_one (s sub : string) : occ sub s = 1 -> count s sub = 1.
Proof.
  intros H. pose proof (count_le_occ s sub). pose proof (count_pos s sub). lia.
Qed.

End Text.

(** ** SnippetPatcher *)

Section Patcher.

Import PyStr.
Local Open Scope string_scope.

Lemma snippet_apply_count_one (C S T : string) :
  count C S = 1 -> snippet_apply C S T = Ok (replace_first S T C).
Proof. unfold snippet_apply. now intros ->. Qed.

(** C3 (amended): when [S] occurs at exactly one position of [C], the edit
    succeeds and returns [C] with that occurrence, the only way to split
    [C] around [S], replaced by [T] and both sides untouched; the inverse
    edit gives back [C] whenever [T] in turn occurs at exactly one position
    of the result. *)
Theorem snippet_apply_single_occurrence (C S T : string) :
  occ S C = 1 ->
  exists A B,
    C = A ++ S ++ B /\
    (forall A' B', C = A' ++ S ++ B' -> A' = A /\ B' = B) /\
    snippet_apply C S T = Ok (A ++ T ++ B) /\
    (occ T (A ++ T ++ B) = 1 -> snippet_apply (A ++ T ++ B) T S = Ok C).
Proof.
  intros H.
  destruct (replace_first_split S T C ltac:(lia)) as (A & B & E & R).
  exists A, B. repeat split.
  - exact E.
  - destruct (occ_unique S C A' B' A B H H0 E); auto.
  - destruct (occ_unique S C A' B' A B H H0 E); auto.
  - rewrite snippet_apply_count_one by now apply count_one. now rewrite R.
  - intros HT.
    rewrite snippet_apply_count_one by now apply count_one.
    destruct (replace_first_split T S (A ++ T ++ B) ltac:(lia)) as (A2 & B2 & E2 & R2).
    destruct (occ_unique T _ A B A2 B2 HT eq_refl E2) as [<- <-].
    now rewrite R2, E.
Qed.

Lemma snippet_apply_single_occurrence_witness :
  occ "y = 2" "x = 1; y = 2" = 1 /\
  exists A B,
    "x = 1; y = 2" = A ++ "y = 2" ++ B /\
    (forall A' B', "x = 1; y = 2" = A' ++ "y = 2" ++ B' -> A' = A /\ B' = B) /\
    snippet_apply "x = 1; y = 2" "y = 2" "y = 3" = Ok (A ++ "y = 3" ++ B) /\
    (occ "y = 3" (A ++ "y = 3" ++ B) = 1 ->
     snippet_apply (A ++ "y = 3" ++ B) "y = 3" "y = 2" = Ok "x = 1; y = 2").
Proof.
  split; [reflexivity|].
  apply (snippet_apply_single_occurrence "x = 1; y = 2" "y = 2" "y = 3").
  reflexivity.
Defined.

(** C3 as stated fails: ["b"] occurs once in ["ab"], the edit to ["aa"]
    gives ["aaa"], and the inverse edit is accepted and gives ["ba"]. *)
Lemma snippet_round_trip_counterexample :
  occ "b" "ab" = 1 /\
  snippet_apply "ab" "b" "aa" = Ok "aaa" /\
  snippet_apply "aaa" "aa" "b" = Ok "ba" /\
  snippet_apply "aaa" "aa" "b" <> Ok "ab".
Proof. repeat split; try reflexivity. discriminate. Qed.

(** The inverse edit can also be refused: the result holds [T] twice. *)
Example snippet_round_trip_refused :
  occ "a" "ab" = 1 /\
  snippet_apply "ab" "a" "b" = Ok "bb" /\
  snippet_apply "bb" "b" "a" = Raise (AmbiguousSnippet 2).
Proof. repeat split. Qed.

Lemma snippet_apply_cases (C S T : string) :
  (count C S = 0 /\ snippet_apply C S T = Raise SnippetNotFound) \/
  (2 <= count C S /\ snippet_apply C S T = Raise (AmbiguousSnippet (count C S))) \/
  (count C S = 1 /\ snippet_apply C S T = Ok (replace_first S T C)).
Proof.
  unfold snippet_apply.
  destruct (Nat.eqb_spec (count C S) 0) as [->|N]; [now left|].
  right. destruct (Nat.ltb_spec 1 (count C S)); [left | right]; split; auto; lia.
Qed.

(** X10: [SnippetNotFound] exactly when the snippet occurs at no position. *)
Lemma snippet_not_found_iff (C S T : string) :
  snippet_apply C S T = Raise SnippetNotFound <-> occ S C = 0.
Proof.
  rewrite <- count_zero_iff.
  destruct (snippet_apply_cases C S T) as [[H ->]|[[H ->]|[H ->]]];
    split; intros X; try tauto; try lia; discriminate.
Qed.

(** X11: [AmbiguousSnippet] only when the snippet occurs at two positions or
    more; the count reported is Python's. *)
Lemma snippet_ambiguous_occ (C S T : string) (n : nat) :
  snippet_apply C S T = Raise (AmbiguousSnippet n) -> 2 <= occ S C.
Proof.
  pose proof (count_le_occ C S) as L.
  destruct (snippet_apply_cases C S T) as [[H ->]|[[H ->]|[H ->]]];
    intros X; try lia; discriminate.
Qed.

(** C4: the snippet ["aa"] occurs at two positions of ["aaa"], Python
    counts one match, and the edit is applied to the first of them. *)
Theorem snippet_apply_overlapping_occurrences :
  occ "aa" "aaa" = 2 /\
  count "aaa" "aa" = 1 /\
  snippet_apply "aaa" "aa" "b" = Ok "ba".
Proof. repeat split. Qed.

End Patcher.


(** ** PathSandbox *)

Section Sandbox.

Import PyStr PosixPath.
Local Open Scope string_scope.

Variable os : OS.

(** Every failure of [normalize_path] is the [ValueError] "Invalid path". *)
Lemma normalize_path_raises_InvalidPath (path_str : string) (e : exn) :
  normalize_path os path_str = Raise e -> is_InvalidPath e = true.
Proof.
  unfold normalize_path.
  destruct (resolve os path_str);
    [|intros [= <-]; exact (prefix_app "Invalid path: " _)].
  destruct (realpath os _);
    [|intros [= <-]; exact (prefix_app "Invalid path: " _)].
  destruct (startswith a a0); simpl; [discriminate|].
  intros [= <-]; exact (prefix_app "Invalid path: " _).
Qed.

(** What [normalize_path] returns is the resolved path, and its text
    starts with the text of the workspace root. *)
Lemma normalize_path_ok (path_str r : string) :
  normalize_path os path_str = Ok r ->
  resolve os path_str = Ok r /\
  exists workspace,
    realpath os (to_string (parse (getcwd os))) = Ok workspace /\
    startswith r workspace = true.
Proof.
  unfold normalize_path.
  destruct (resolve os path_str) as [p|]; [|discriminate].
  destruct (realpath os _) as [ws|]; [|discriminate].
  destruct (startswith p ws) eqn:E; simpl; [|discriminate].
  intros [= <-]. eauto.
Qed.


End Sandbox.



(** The containment test compares texts: a sibling of the workspace whose
    name extends the name of the workspace passes it. *)
Example normalize_path_sibling_prefix :
  PosixPath.within "/home/u/proj" "/home/u/proj-evil/x" = false /\
  normalize_path demo_os "/home/u/proj-evil/x" = Ok "/home/u/proj-evil/x".
Proof. split; reflexivity. Qed.

Example normalize_path_inside :
  normalize_path demo_os "src/../a.py" = Ok "/home/u/proj/a.py".
Proof. reflexivity. Qed.

(** ** FileWriter *)

Section Writer.

Import PyStr.
Local Open Scope string_scope.

(** A refusal, any answer other than [y] and the empty one, writes
    nothing. *)
Lemma create_file_declined (os : OS) (w : World) (path content answer : string) :
  lower (strip answer) <> "y" ->
  lower (strip answer) <> "" ->
  create_file os w path content true answer = (w, Skipped)
  \/ exists e, create_file os w path content true answer = (w, Failed e).
Proof.
  intros Hy He. unfold create_file.
  destruct (existsb _ _); [right; eauto|].
  destruct (normalize_path os _); [|right; eauto].
  destruct (_ >? _)%Z; [right; eauto|].
  destruct (String.eqb_spec (lower (strip answer)) "y"); [contradiction|].
  destruct (String.eqb_spec (lower (strip answer)) ""); [contradiction|].
  now left.
Qed.

Lemma create_file_demo (w : World) (content answer : string) (rc : bool) :
  (Z.of_nat (String.length content) >? 5000000)%Z = false ->
  (if rc then lower (strip answer) else "y") = "y"
  \/ (if rc then lower (strip answer) else "y") = "" ->
  create_file demo_os w "f.txt" content rc answer
  = (append_message
       (append_message (write_file w "/home/u/proj/f.txt" content)
          {| role := system;
             content := "File operation: Created/updated file at 'f.txt'" |})
       (file_content_message "/home/u/proj/f.txt" content),
     Created).
Proof.
  intros L A. unfold create_file.
  change (PosixPath.to_string (PosixPath.parse "f.txt")) with "f.txt".
  change (normalize_path demo_os "f.txt") with (Ok (A:=string) "/home/u/proj/f.txt").
  change (existsb _ (PosixPath.parts (PosixPath.parse "f.txt"))) with false.
  cbv iota. rewrite L.
  destruct A as [-> | ->]; reflexivity.
Qed.

(** C5: with confirmation required and the prompt answered by an empty
    line, the file is written. *)
Theorem create_file_empty_answer_writes (w : World) :
  snd (create_file demo_os w "f.txt" "x" true "") = Created /\
  fs (fst (create_file demo_os w "f.txt" "x" true "")) "/home/u/proj/f.txt"
  = Some "x" /\
  snd (create_file demo_os w "f.txt" "x" true "n") = Skipped.
Proof.
  rewrite (create_file_demo w "x" "" true) by (auto; right; reflexivity).
  repeat split.
Qed.

(** C2: writing the same file twice leaves two more messages with its
    content in the log. *)
Theorem create_file_twice_two_copies (w : World) :
  List.length
    (file_messages_for "/home/u/proj/f.txt"
       (conversation_history
          (fst (create_file demo_os
                  (fst (create_file demo_os w "f.txt" "v1" false ""))
                  "f.txt" "v1" false ""))))
  = 2 + List.length
          (file_messages_for "/home/u/proj/f.txt" (conversation_history w)).
Proof.
  rewrite !(create_file_demo _ "v1" "" false) by (auto; left; reflexivity).
  cbn [fst append_message write_file conversation_history].
  unfold file_messages_for. rewrite !filter_app, !length_app.
  cbn. lia.
Qed.

End Writer.

(** ** ConversationContext *)

Section Conversation.

Lemma user_or_assistant_not_file (msg : Message) :
  is_user_or_assistant msg = true -> is_file_context msg = false.
Proof.
  unfold is_user_or_assistant, is_file_context.
  now destruct (role msg).
Qed.

Lemma file_not_user_or_assistant (msg : Message) :
  is_file_context msg = true -> is_user_or_assistant msg = false.
Proof.
  unfold is_user_or_assistant, is_file_context.
  now destruct (role msg).
Qed.

Lemma filter_pairs_eq (l : list Message) :
  filter (fun msg => negb (is_file_context msg) && is_user_or_assistant msg) l
  = filter is_user_or_assistant l.
Proof.
  apply filter_ext. intros msg.
  destruct (is_user_or_assistant msg) eqn:E.
  - now rewrite (user_or_assistant_not_file msg E).
  - now rewrite andb_false_r.
Qed.

Lemma filter_all (A : Type) (f : A -> bool) (l : list A) :
  Forall (fun x => f x = true) l -> filter f l = l.
Proof.
  induction 1 as [|x l Hx _ IH]; simpl; [reflexivity|]. now rewrite Hx, IH.
Qed.

Lemma filter_none (A : Type) (f : A -> bool) (l : list A) :
  Forall (fun x => f x = false) l -> filter f l = [].
Proof.
  induction 1 as [|x l Hx _ IH]; simpl; [reflexivity|]. now rewrite Hx.
Qed.

Lemma Forall_filter_true (A : Type) (f : A -> bool) (l : list A) :
  Forall (fun x => f x = true) (filter f l).
Proof.
  induction l as [|x l IH]; simpl; [constructor|].
  destruct (f x) eqn:E; auto.
Qed.

Lemma mod2_even (n : nat) : n mod 2 = 0 <-> Nat.even n = true.
Proof. now rewrite Nat.even_spec, Nat.Div0.mod_divides. Qed.

Lemma even_succ_odd (n : nat) : Nat.even n = true -> (n + 1) mod 2 <> 0.
Proof.
  intros H. rewrite mod2_even, Nat.add_1_r, Nat.even_succ, <- Nat.negb_even, H.
  discriminate.
Qed.

Lemma kept_pairs_split (l : list Message) :
  exists dropped,
    l = kept_pairs l ++ dropped /\
    List.length dropped <= 1 /\
    Nat.even (List.length (kept_pairs l)) = true.
Proof.
  unfold kept_pairs.
  destruct (Nat.eqb_spec (List.length l mod 2) 0) as [E|E]; simpl.
  - exists []. rewrite app_nil_r. repeat split; auto. now apply mod2_even.
  - destruct (exists_last (l := l)) as (l' & x & ->).
    { intros ->. now apply E. }
    rewrite removelast_last. exists [x]. repeat split; auto.
    rewrite length_app, mod2_even in E. simpl in E.
    rewrite Nat.add_1_r, Nat.even_succ, <- Nat.negb_even in E.
    now destruct (Nat.even (List.length l')).
Qed.

Lemma kept_pairs_odd (l : list Message) (x : Message) :
  Nat.even (List.length l) = true -> kept_pairs (l ++ [x]) = l.
Proof.
  intros H. unfold kept_pairs. rewrite length_app.
  change (List.length [x]) with 1.
  destruct (Nat.eqb_spec ((List.length l + 1) mod 2) 0) as [E|E]; cbn [negb].
  - now apply even_succ_odd in H.
  - apply removelast_last.
Qed.

Lemma rebuild_for_request_eq (first : Message) (rest : list Message)
    (user_message : string) :
  rebuild_for_request (first :: rest) user_message
  = Ok (first :: filter is_file_context rest
          ++ kept_pairs (filter is_user_or_assistant rest)
          ++ [{| role := user; content := user_message |}]).
Proof.
  unfold rebuild_for_request, kept_pairs. rewrite filter_pairs_eq.
  reflexivity.
Qed.

(** The rebuild replaces the log by its first message, then the
    file-content messages, then the conversational messages in order, cut
    to an even number by dropping at most the last one, then the new user
    message; a second rebuild with the same message returns the same log,
    so the same number of messages. *)
Lemma rebuild_for_request_shape (first : Message) (rest : list Message)
    (user_message : string) :
  exists pairs dropped rebuilt,
    filter is_user_or_assistant rest = pairs ++ dropped /\
    List.length dropped <= 1 /\
    Nat.even (List.length pairs) = true /\
    rebuilt = first :: filter is_file_context rest ++ pairs
                ++ [{| role := user; content := user_message |}] /\
    rebuild_for_request (first :: rest) user_message = Ok rebuilt /\
    rebuild_for_request rebuilt user_message = Ok rebuilt /\
    List.length rebuilt
    = 1 + List.length (filter is_file_context rest) + List.length pairs + 1.
Proof.
  destruct (kept_pairs_split (filter is_user_or_assistant rest))
    as (dropped & E & L & Ev).
  set (pairs := kept_pairs (filter is_user_or_assistant rest)) in *.
  exists pairs, dropped. eexists. repeat split; eauto.
  - apply rebuild_for_request_eq.
  - rewrite rebuild_for_request_eq. do 2 f_equal.
    assert (Fp : Forall (fun m => is_user_or_assistant m = true) pairs).
    { assert (X : Forall (fun m => is_user_or_assistant m = true)
                         (pairs ++ dropped))
        by (rewrite <- E; apply Forall_filter_true).
      apply Forall_app in X. tauto. }
    rewrite !filter_app.
    rewrite (filter_all _ is_file_context (filter is_file_context rest))
      by apply Forall_filter_true.
    rewrite (filter_none _ is_file_context pairs)
      by (eapply Forall_impl; [|exact Fp]; apply user_or_assistant_not_file).
    rewrite (filter_none _ is_user_or_assistant (filter is_file_context rest))
      by (eapply Forall_impl; [|apply Forall_filter_true];
          apply file_not_user_or_assistant).
    rewrite (filter_all _ is_user_or_assistant pairs) by exact Fp.
    cbn [filter is_file_context is_user_or_assistant role Role_eqb andb orb app].
    rewrite app_nil_r. f_equal.
    now rewrite kept_pairs_odd.
  - cbn [List.length]. rewrite !length_app. cbn [List.length]. lia.
Qed.

Lemma exchanges_even (l : list Message) :
  exchanges l -> Nat.even (List.length l) = true.
Proof. induction 1; auto. Qed.

(** On a log whose conversation is a sequence of complete exchanges with
    at most one message after them, the rebuild keeps the exchanges. *)
Lemma kept_pairs_exchanges (l t : list Message) :
  exchanges l -> List.length t <= 1 -> kept_pairs (l ++ t) = l.
Proof.
  intros E L. destruct t as [|x [|y t]]; simpl in L; try lia.
  - rewrite app_nil_r. unfold kept_pairs.
    apply exchanges_even, mod2_even in E. now rewrite E.
  - apply kept_pairs_odd. now apply exchanges_even.
Qed.

Example rebuild_drops_unanswered :
  rebuild_for_request
    [ {| role := system; content := "prompt" |};
      {| role := user; content := "q1" |};
      {| role := assistant; content := "a1" |};
      {| role := system; content := "File operation: Created/updated file at 'f'" |};
      {| role := system; content := "Content of file '/ws/f': v" |};
      {| role := user; content := "q2" |} ] "q3"
  = Ok [ {| role := system; content := "prompt" |};
         {| role := system; content := "Content of file '/ws/f': v" |};
         {| role := user; content := "q1" |};
         {| role := assistant; content := "a1" |};
         {| role := user; content := "q3" |} ].
Proof. reflexivity. Qed.




End Conversation.

(** ** Pruning *)

Section Pruning.

Lemma last_n_suffix (A : Type) (n : nat) (l : list A) :
  exists dropped, l = dropped ++ last_n n l /\
                  List.length (last_n n l) = Nat.min n (List.length l).
Proof.
  unfold last_n. exists (firstn (List.length l - n) l). split.
  - now rewrite firstn_skipn.
  - rewrite length_skipn. lia.
Qed.

(** C10: the pruned log is the system messages, in their order, followed
    by the last non-system messages, in their order: all of them when
    there are at most 20, the last 20 otherwise. The bound counts single
    messages. *)
Theorem trim_conversation_history_shape (h : list Message) :
  exists dropped kept,
    filter (fun msg => negb (is_system msg)) h = dropped ++ kept /\
    List.length kept = Nat.min 20 (List.length (filter (fun msg => negb (is_system msg)) h)) /\
    List.length kept <= 20 /\
    trim_conversation_history h = filter is_system h ++ kept /\
    Forall (fun msg => role msg = system) (filter is_system h) /\
    Forall (fun msg => role msg = user \/ role msg = assistant) kept.
Proof.
  unfold trim_conversation_history.
  fold is_system.
  change (filter (fun msg => negb (Role_eqb (role msg) system)) h)
    with (filter (fun msg => negb (is_system msg)) h).
  set (others := filter (fun msg => negb (is_system msg)) h).
  assert (Fo : Forall (fun msg => role msg = user \/ role msg = assistant) others).
  { eapply Forall_impl; [|apply Forall_filter_true]. cbv beta.
    intros msg. unfold is_system. destruct (role msg); simpl; auto; discriminate. }
  assert (Fs : Forall (fun msg => role msg = system) (filter is_system h)).
  { eapply Forall_impl; [|apply Forall_filter_true].
    intros msg. unfold is_system. destruct (role msg); simpl; auto; discriminate. }
  change (10 * 2) with 20.
  destruct (Nat.ltb_spec 20 (List.length others)) as [L|L].
  - destruct (last_n_suffix _ 20 others) as (dropped & E & Len).
    exists dropped, (last_n 20 others). repeat split; auto; try lia.
    rewrite E in Fo. apply Forall_app in Fo. tauto.
  - exists [], others. repeat split; auto; lia.
Qed.

(** With 21 conversational messages the cut falls inside an exchange: the
    log kept starts with a reply. *)
Example trim_cuts_an_exchange :
  let u := {| role := user; content := "q" |} in
  let a := {| role := assistant; content := "r" |} in
  let p := {| role := system; content := "prompt" |} in
  trim_conversation_history
    (u :: p :: a :: List.concat (repeat [u; a] 9) ++ [u])
  = p :: a :: List.concat (repeat [u; a] 9) ++ [u].
Proof. reflexivity. Qed.

End Pruning.

(** ** DirectoryIngester *)

Section IngesterLimits.

Local Open Scope Z_scope.

Variable os : OS.
Variable limits : ScanLimits.

(** One file is either skipped, which changes the skip list only, or
    added, and then its size fits under the total limit. *)
Lemma scan_file_cases (root : string) (st : ScanState) (file : string) :
  (exists entry, scan_file os limits root st file = skip st entry) \/
  (exists file_size,
      getsize os (path_join root file) = Some file_size /\
      total_size st + file_size <= max_total_size limits /\
      total_size (scan_file os limits root st file) = total_size st + file_size /\
      total_files_processed (scan_file os limits root st file)
      = total_files_processed st + 1).
Proof.
  unfold scan_file.
  destruct (_ || _); [left; eauto|].
  destruct (str_in _ excluded_extensions); [left; eauto|].
  destruct (getsize os _) as [file_size|]; [|left; eauto].
  destruct (file_size >? _); [left; eauto|].
  destruct (Z.gtb_spec (total_size st + file_size) (max_total_size limits));
    [left; eauto|].
  destruct (is_binary_file os _); [left; eauto|].
  destruct (normalize_path os _); [|left; eauto].
  destruct (read_local_file os _ _) as [c|e];
    [|left; destruct (is_OSError e); eauto].
  right. exists file_size. repeat split; auto.
Qed.

Lemma limit_reached_false (st : ScanState) :
  limit_reached limits st = false ->
  total_files_processed st < max_files limits /\
  total_size st < max_total_size limits.
Proof. unfold limit_reached. lia. Qed.

Lemma scan_file_within_limits (root : string) (st : ScanState) (file : string) :
  within_limits limits st -> limit_reached limits st = false ->
  within_limits limits (scan_file os limits root st file).
Proof.
  intros [Hs Hf] L. apply limit_reached_false in L. unfold within_limits.
  destruct (scan_file_cases root st file) as [[e E]|(sz & _ & B & E1 & E2)].
  - rewrite E. simpl. lia.
  - rewrite E1, E2. lia.
Qed.

Lemma scan_files_within_limits (root : string) (files : list string) :
  forall st, within_limits limits st -> within_limits limits (scan_files os limits root files st).
Proof.
  induction files as [|file rest IH]; intros st H; simpl; auto.
  destruct (limit_reached limits st) eqn:L; auto.
  apply IH. now apply scan_file_within_limits.
Qed.

Lemma scan_walk_within_limits (visits : list (string * list string)) :
  forall st, within_limits limits st -> within_limits limits (scan_walk os limits visits st).
Proof.
  induction visits as [|[root files] rest IH]; intros st H; simpl; auto.
  destruct (limit_reached limits st); auto.
  apply IH. now apply scan_files_within_limits.
Qed.

(** Once a limit is reached nothing more is looked at. *)
Lemma scan_files_stopped (root : string) (files : list string) (st : ScanState) :
  limit_reached limits st = true -> scan_files os limits root files st = st.
Proof. intros L. destruct files; simpl; auto. now rewrite L. Qed.

Lemma scan_walk_stopped (visits : list (string * list string)) (st : ScanState) :
  limit_reached limits st = true -> scan_walk os limits visits st = st.
Proof. intros L. destruct visits as [|[root files] rest]; simpl; auto. now rewrite L. Qed.

(** The state in the middle of a scan is the state at the end of the scan
    of what was visited so far. *)
Lemma scan_walk_app (v1 v2 : list (string * list string)) :
  forall st,
    scan_walk os limits (v1 ++ v2) st
    = scan_walk os limits v2 (scan_walk os limits v1 st).
Proof.
  induction v1 as [|[root files] rest IH]; intros st; simpl; auto.
  destruct (limit_reached limits st) eqn:L; auto.
  now rewrite scan_walk_stopped.
Qed.

(** A file that would take the total past the limit is skipped. *)
Lemma scan_file_over_total (root : string) (st : ScanState) (file : string)
    (file_size : Z) :
  getsize os (path_join root file) = Some file_size ->
  total_size st + file_size > max_total_size limits ->
  exists entry, scan_file os limits root st file = skip st entry.
Proof.
  intros G H.
  destruct (scan_file_cases root st file) as [|(sz & G' & B & _)]; auto.
  rewrite G in G'. injection G' as <-. lia.
Qed.

End IngesterLimits.

(** C9: whatever the tree and the answers of the file system, the total
    size the ingester reports stays at or below 50,000,000 and its count of
    files at or below 1000, at the end of every scan and so, a scan cut
    short being a scan, all along it; a file that would take the total past
    the limit is skipped; once a limit is reached the scan changes nothing
    more. *)
Theorem directory_ingester_limits (os : OS) (w : World) :
  (forall visits,
      (total_size (scan_walk os source_limits visits (scan_start w)) <= 50000000)%Z /\
      (total_files_processed (scan_walk os source_limits visits (scan_start w))
       <= 1000)%Z) /\
  (forall directory_path tree,
      (total_size (add_directory_to_conversation os w directory_path tree)
       <= 50000000)%Z /\
      (total_files_processed (add_directory_to_conversation os w directory_path tree)
       <= 1000)%Z) /\
  (forall st root file file_size,
      getsize os (path_join root file) = Some file_size ->
      (total_size st + file_size > 50000000)%Z ->
      exists entry, scan_file os source_limits root st file = skip st entry) /\
  (forall st visits root files,
      limit_reached source_limits st = true ->
      scan_walk os source_limits visits st = st /\
      scan_files os source_limits root files st = st).
Proof.
  assert (S0 : within_limits source_limits (scan_start w))
    by (split; simpl; lia).
  repeat split.
  - apply (scan_walk_within_limits os source_limits visits _ S0).
  - apply (scan_walk_within_limits os source_limits visits _ S0).
  - apply (scan_walk_within_limits os source_limits _ _ S0).
  - apply (scan_walk_within_limits os source_limits _ _ S0).
  - intros st root file file_size G H.
    now apply (scan_file_over_total os source_limits root st file file_size).
  - now apply scan_walk_stopped.
  - now apply scan_files_stopped.
Qed.

(** ** RateLimiter *)

Section RateWindow.

Local Open Scope Z_scope.

Lemma filter_length_mono (A : Type) (f g : A -> bool) (l : list A) :
  (forall a, In a l -> f a = true -> g a = true) ->
  (List.length (filter f l) <= List.length (filter g l))%nat.
Proof.
  induction l as [|a l IH]; intros H; simpl; auto.
  assert (IH' := IH (fun b Hb => H b (or_intror Hb))).
  destruct (f a) eqn:F.
  - rewrite (H a (or_introl eq_refl) F). simpl. lia.
  - destruct (g a); simpl; lia.
Qed.

Lemma filter_length_le (A : Type) (f : A -> bool) (l : list A) :
  (List.length (filter f l) <= List.length l)%nat.
Proof. induction l as [|a l IH]; simpl; auto. destruct (f a); simpl; lia. Qed.

(** The [while] loop drops a prefix of entries older than the period and
    stops at an entry that is not. *)
Lemma popleft_expired_split (now p : Z) (ts : list Z) :
  exists dropped,
    ts = dropped ++ popleft_expired now p ts /\
    Forall (fun a => p < now - a) dropped /\
    match popleft_expired now p ts with
    | [] => True
    | t0 :: _ => now - t0 <= p
    end.
Proof.
  induction ts as [|a ts (dropped & E & F & H)]; simpl.
  - exists []. auto.
  - destruct (Z.gtb_spec (now - a) p) as [G|G].
    + exists (a :: dropped). split; [simpl; now f_equal|].
      split; [constructor; auto; lia | exact H].
    + exists []. repeat split; auto.
Qed.

Lemma StronglySorted_suffix (d l : list Z) :
  StronglySorted Z.le (d ++ l) -> StronglySorted Z.le l.
Proof.
  induction d as [|a d IH]; simpl; auto.
  intros H. apply StronglySorted_inv in H. tauto.
Qed.

Lemma StronglySorted_snoc (l : list Z) (x : Z) :
  StronglySorted Z.le l -> Forall (fun a => a <= x) l ->
  StronglySorted Z.le (l ++ [x]).
Proof.
  induction 1 as [|a l S IH F]; intros H; simpl.
  - repeat constructor.
  - apply Forall_cons_iff in H. destruct H as [Ha Hl].
    constructor; auto. apply Forall_app. split; auto.
Qed.

Variables m p : Z.

(** Admitting [now] keeps every interval within bounds when fewer than
    [m] of the times admitted so far are within the period of [now]. *)
Lemma admitted_in_snoc (log : list Z) (now : Z) :
  (forall x, Z.of_nat (List.length (admitted_in p x log)) <= m) ->
  Z.of_nat (List.length (filter (fun a => now - a <=? p) log)) <= m - 1 ->
  forall x, Z.of_nat (List.length (admitted_in p x (log ++ [now]))) <= m.
Proof.
  intros R K x. unfold admitted_in. rewrite filter_app, length_app. simpl.
  destruct (Z.leb_spec x now) as [X|X]; simpl;
    [destruct (Z.leb_spec now (x + p)) as [Y|Y]; simpl|];
    try (specialize (R x); unfold admitted_in in R; lia).
  assert (L : Nat.le (List.length (filter (fun a => (x <=? a) && (a <=? x + p)) log))
                     (List.length (filter (fun a => now - a <=? p) log))).
  { apply filter_length_mono. intros a _ H. lia. }
  lia.
Qed.

(** One acquisition on a clock that has not gone back and reads after the
    sleep, when there is one, a time past the one asked for: what held of
    the window holds again when the call returns. *)
Lemma window_inv_keep (rl rl' : RateLimiter) (log : list Z) (last t1 late now : Z) :
  0 < m ->
  window_inv m p rl log last ->
  last <= t1 ->
  (forall d, time_to_wait rl t1 = Some d -> 0 < late) ->
  RateLimiter_call rl t1 late = Ok (rl', now) ->
  window_inv m p rl' (log ++ [now]) now.
Proof.
  intros Hm (Em & Ep & (old & El & Fold) & Fle & Sorted & R) Ht1 Hsleep.
  unfold RateLimiter_call, time_to_wait in *. rewrite Em, Ep in *.
  destruct (popleft_expired_split t1 p (timestamps rl)) as (dropped & Ew & Fd & Hhd).
  set (W := popleft_expired t1 p (timestamps rl)) in *.
  assert (Elog : log = (old ++ dropped) ++ W) by (rewrite <- app_assoc; congruence).
  assert (Fold' : Forall (fun a => p < t1 - a) (old ++ dropped)).
  { apply Forall_app. split; auto.
    eapply Forall_impl; [|exact Fold]. cbv beta. intros; lia. }
  assert (SW : StronglySorted Z.le W).
  { apply (StronglySorted_suffix dropped). now rewrite <- Ew. }
  assert (FW : Forall (fun a => a <= t1) W).
  { rewrite Elog in Fle. apply Forall_app in Fle. destruct Fle as [_ Fle].
    eapply Forall_impl; [|exact Fle]. cbv beta. intros; lia. }
  assert (Fresh : Forall (fun a => t1 - a <= p) W).
  { destruct W as [|t0 W']; [constructor|].
    apply StronglySorted_inv in SW. destruct SW as [_ SW].
    constructor; auto. eapply Forall_impl; [|exact SW]. cbv beta. intros; lia. }
  assert (LW : Z.of_nat (List.length W) <= m).
  { specialize (R (t1 - p)). unfold admitted_in in R.
    rewrite Elog, filter_app, length_app in R.
    rewrite (filter_all _ _ W) in R; [lia|].
    rewrite Forall_forall in FW, Fresh. apply Forall_forall.
    intros a Ha. specialize (FW a Ha). specialize (Fresh a Ha). lia. }
  assert (Common : forall now W2,
             t1 <= now ->
             Z.of_nat (List.length (filter (fun a => now - a <=? p) W)) <= m - 1 ->
             W2 = W ++ [now] ->
             window_inv m p {| max_calls := m; period := p; timestamps := W2 |}
                        (log ++ [now]) now).
  { intros now' W2 Hnow K ->. repeat split; simpl; auto.
    - exists (old ++ dropped). split.
      + rewrite Elog. now rewrite app_assoc.
      + eapply Forall_impl; [|exact Fold']. cbv beta. intros; lia.
    - apply Forall_app. split; [|repeat constructor; lia].
      eapply Forall_impl; [|exact Fle]. cbv beta. intros; lia.
    - apply StronglySorted_snoc; auto.
      eapply Forall_impl; [|exact FW]. cbv beta. intros; lia.
    - apply admitted_in_snoc; auto.
      rewrite Elog, filter_app, length_app.
      rewrite (filter_none _ _ (old ++ dropped)); [simpl; lia|].
      eapply Forall_impl; [|exact Fold']. cbv beta. intros; lia. }
  destruct (Z.geb_spec (Z.of_nat (List.length W)) m) as [G|G].
  - destruct W as [|t0 W'] eqn:EW; [discriminate|].
    assert (H0 : t1 - t0 <= p) by exact Hhd.
    assert (Hs : 0 < late).
    { apply (Hsleep (p - (t1 - t0))).
      destruct (Z.geb_spec (Z.of_nat (List.length (t0 :: W'))) m); auto; lia. }
    unfold sleep_then_time.
    destruct (_ <? 0); [discriminate|].
    destruct (_ >? sleep_max); [discriminate|].
    intros [= <- <-].
    set (t2 := t1 + (p - (t1 - t0)) + late).
    apply Common; auto; [lia|].
    simpl. destruct (Z.leb_spec (t2 - t0) p); [lia|].
    pose proof (filter_length_le _ (fun a => t2 - a <=? p) W').
    simpl in LW. lia.
  - intros [= <- <-].
    apply Common; auto; [lia|].
    pose proof (filter_length_le _ (fun a => t1 - a <=? p) W). lia.
Qed.




End RateWindow.



Example six_acquisitions :
  acquire_all (RateLimiter_init 5 10)
    [(0, 0); (1, 0); (2, 0); (3, 0); (4, 0); (5, 1)]%Z
  = Ok ({| max_calls := 5; period := 10;
           timestamps := [0; 1; 2; 3; 4; 11]%Z |}, [0; 1; 2; 3; 4; 11]%Z).
Proof. reflexivity. Qed.

Lemma acquire_all_app (a b : list (Z * Z)) :
  forall rl,
    acquire_all rl (a ++ b)
    = match acquire_all rl a with
      | Raise e => Raise e
      | Ok (rl', adm) =>
          match acquire_all rl' b with
          | Raise e => Raise e
          | Ok (rl'', adm') => Ok (rl'', adm ++ adm')
          end
      end.
Proof.
  induction a as [|[t1 late] a IH]; intros rl; cbn [app acquire_all].
  - now destruct (acquire_all rl b) as [[rl' adm]|].
  - destruct (RateLimiter_call rl t1 late) as [[rl1 now]|]; [|reflexivity].
    rewrite IH. destruct (acquire_all rl1 a) as [[rl2 adm]|]; [|reflexivity].
    now destruct (acquire_all rl2 b) as [[rl3 adm']|].
Qed.

(** When the oldest timestamp of a full window is exactly one period old,
    it is not dropped, the wait computed is zero, and a call that reads
    the clock at that time is admitted at that time. *)
Lemma RateLimiter_call_on_the_period (m p t0 : Z) (l : list Z) :
  (0 <= p)%Z -> (m <= Z.of_nat (List.length (t0 :: l)))%Z ->
  RateLimiter_call {| max_calls := m; period := p; timestamps := t0 :: l |}
    (t0 + p) 0
  = Ok ({| max_calls := m; period := p; timestamps := (t0 :: l) ++ [t0 + p]%Z |},
        (t0 + p)%Z).
Proof.
  intros Hp Hl. unfold RateLimiter_call, sleep_then_time.
  cbn [max_calls period timestamps popleft_expired].
  destruct (Z.gtb_spec (t0 + p - t0) p); [lia|].
  destruct (Z.geb_spec (Z.of_nat (List.length (t0 :: l))) m); [|lia].
  destruct (Z.ltb_spec (p - (t0 + p - t0)) 0); [lia|].
  destruct (Z.gtb_spec (p - (t0 + p - t0)) sleep_max); [unfold sleep_max in *; lia|].
  replace (t0 + p + (p - (t0 + p - t0)) + 0)%Z with (t0 + p)%Z by lia.
  reflexivity.
Qed.

Lemma acquire_all_on_the_period (m p t0 : Z) (n : nat) :
  (0 <= p)%Z ->
  forall l,
    (m <= Z.of_nat (List.length (t0 :: l)))%Z ->
    acquire_all {| max_calls := m; period := p; timestamps := t0 :: l |}
      (repeat ((t0 + p)%Z, 0%Z) n)
    = Ok ({| max_calls := m; period := p;
             timestamps := (t0 :: l) ++ repeat (t0 + p)%Z n |},
          repeat (t0 + p)%Z n).
Proof.
  intros Hp. induction n as [|n IH]; intros l Hl; cbn [repeat acquire_all].
  - now rewrite app_nil_r.
  - rewrite RateLimiter_call_on_the_period by assumption.
    change ((t0 :: l) ++ [(t0 + p)%Z]) with (t0 :: (l ++ [(t0 + p)%Z])).
    rewrite IH.
    + cbn [app]. now rewrite <- app_assoc.
    + cbn [List.length] in *. rewrite length_app. cbn [List.length]. lia.
Qed.

(** C6: the limiter of [main], five calls a second. Five calls are made
    at 0, 0.1, 0.2, 0.3 and 0.4 s and a sixth at 0.5 s, which sleeps for
    the 0.5 s computed and wakes exactly on time, the clock reading 1 s;
    [n] more calls are made while the clock reads 1 s. Every call is
    admitted, those [n] with no wait at all: the timestamp of the first
    call is then exactly one period old, which the [while] loop does not
    count as expired, and the wait computed from it is zero. So the window
    holds [6 + n] timestamps whose age is within the period, and the
    second that starts at 0 holds [6 + n] admissions, [5 + n] of them
    after its first instant. *)
Theorem rate_window_overfull (n : nat) :
  let early := [0; 100000000; 200000000; 300000000; 400000000]%Z in
  let admitted := early ++ second :: repeat second n in
  acquire_all main_rate_limiter
    (map (fun t => (t, 0%Z)) early ++ (500000000, 0)%Z :: repeat (second, 0%Z) n)
  = Ok ({| max_calls := 5; period := second; timestamps := admitted |}, admitted) /\
  within_period second second admitted = admitted /\
  admitted_in second 0 admitted = admitted /\
  List.length admitted = 6 + n /\
  List.length (filter (fun a => (0 <? a)%Z && (a <=? second)%Z) admitted) = 5 + n.
Proof.
  intros early admitted.
  assert (Fr : forall f : Z -> bool, f second = true ->
                 filter f (repeat second n) = repeat second n).
  { intros f Hf. apply filter_all.
    apply Forall_forall. intros a Ha. apply repeat_spec in Ha. now subst a. }
  split; [|split; [|split; [|split]]].
  - change (map (fun t => (t, 0%Z)) early ++ (500000000, 0)%Z :: repeat (second, 0%Z) n)
      with ((map (fun t => (t, 0%Z)) early ++ [(500000000, 0)%Z])
              ++ repeat (second, 0%Z) n).
    rewrite acquire_all_app.
    replace (acquire_all main_rate_limiter
               (map (fun t => (t, 0%Z)) early ++ [(500000000, 0)%Z]))
      with (Ok ({| max_calls := 5; period := second;
                   timestamps := 0%Z :: [100000000; 200000000; 300000000;
                                         400000000; second]%Z |},
                early ++ [second]))
      by (vm_compute; reflexivity).
    pose proof (acquire_all_on_the_period 5 second 0 n ltac:(unfold second; lia)
                  [100000000; 200000000; 300000000; 400000000; second]%Z
                  ltac:(cbn [List.length]; lia)) as H.
    change (0 + second)%Z with second in H. rewrite H.
    unfold admitted, early. cbn [app]. reflexivity.
  - unfold admitted, within_period. rewrite filter_app. cbn [filter].
    change (negb (second - second >? second)%Z) with true. cbv iota.
    rewrite Fr by reflexivity. reflexivity.
  - unfold admitted, admitted_in. rewrite filter_app. cbn [filter].
    change ((0 <=? second)%Z && (second <=? 0 + second)%Z) with true. cbv iota.
    rewrite Fr by reflexivity. reflexivity.
  - unfold admitted. rewrite length_app. cbn [List.length].
    rewrite repeat_length. reflexivity.
  - unfold admitted. rewrite filter_app. cbn [filter].
    change ((0 <? second)%Z && (second <=? second)%Z) with true. cbv iota.
    rewrite Fr by reflexivity.
    rewrite length_app. cbn [List.length]. rewrite repeat_length. reflexivity.
Qed.

(** C7 (amended): a limiter with [max_calls = 0] is built like any other,
    nothing is checked; its acquisitions do not block, each raises
    [IndexError] on the empty window. *)
Theorem RateLimiter_zero_max_calls (period t1 late : Z) :
  RateLimiter_init 0 period
  = {| max_calls := 0; period := period; timestamps := [] |} /\
  RateLimiter_call (RateLimiter_init 0 period) t1 late
  = Raise (IndexError "deque index out of range").
Proof. split; reflexivity. Qed.

(** C7 as stated fails: the limiter with [max_calls = 0] exists, and it is
    its first acquisition that fails. *)
Lemma RateLimiter_zero_accepted_counterexample :
  max_calls (RateLimiter_init 0 1) = 0%Z /\
  acquire_all (RateLimiter_init 0 1) [] = Ok (RateLimiter_init 0 1, []) /\
  acquire_all (RateLimiter_init 0 1) [(0, 0)%Z]
  = Raise (IndexError "deque index out of range").
Proof. repeat split. Qed.

(** ** Examples of runs *)

(** A directory with [a.py], [b.png] and [.git/config]: [a.py] is added,
    [b.png] is skipped, [.git] is not entered. *)
Example scan_small_directory :
  let st := add_directory_to_conversation demo_os demo_world "/home/u/proj/d"
              (Dir "d" ["a.py"; "b.png"] [Dir ".git" ["config"] []]) in
  added_files st = ["/home/u/proj/d/a.py"] /\
  skipped_files st = ["/home/u/proj/d/b.png"] /\
  total_files_processed st = 1%Z /\
  total_size st = 10%Z /\
  conversation_history (scan_world st)
  = [file_content_message "/home/u/proj/d/a.py" "xxxxxxxxxx"].
Proof. repeat split. Qed.

Lemma directory_ingester_limits_witness :
  let full := {| skipped_files := []; added_files := [];
                 total_files_processed := 3; total_size := 49999995;
                 scan_world := demo_world |} in
  let done := {| skipped_files := []; added_files := [];
                 total_files_processed := 1000; total_size := 7;
                 scan_world := demo_world |} in
  (exists entry,
      scan_file demo_os source_limits "/home/u/proj/d" full "a.py" = skip full entry) /\
  scan_walk demo_os source_limits [("/home/u/proj/d", ["a.py"])] done = done /\
  scan_files demo_os source_limits "/home/u/proj/d" ["a.py"] done = done.
Proof.
  intros full done.
  destruct (directory_ingester_limits demo_os demo_world) as (_ & _ & H3 & H4).
  split.
  - apply (H3 full "/home/u/proj/d" "a.py" 10%Z); reflexivity.
  - apply (H4 done [("/home/u/proj/d", ["a.py"])] "/home/u/proj/d" ["a.py"]).
    reflexivity.
Defined.

(** What the clock condition of [rate_window_bounded] excludes: when the
    reading after the sleep is exactly the time asked for and the next
    reading is the same again, the entry that has just reached the period
    is kept and a second call is admitted at the same time. *)
Example rate_window_standing_clock :
  clock_ok_run (RateLimiter_init 1 1) [(0, 0); (0, 0); (1, 0)]%Z = false /\
  acquire_all (RateLimiter_init 1 1) [(0, 0); (0, 0); (1, 0)]%Z
  = Ok ({| max_calls := 1; period := 1; timestamps := [0; 1; 1]%Z |},
        [0; 1; 1]%Z).
Proof. split; reflexivity. Qed.

Section Dedup.

Import PyStr.

Lemma prefix_contains (sub s : string) :
  String.prefix sub s = true -> contains sub s = true.
Proof. intros H. destruct s; cbn [contains]; now rewrite H. Qed.

(** [ensure_file_in_context] adds no second copy: after it the log holds
    at most one message for the file when it held none, and at most what
    it held otherwise. *)
Lemma ensure_file_in_context_no_second_copy (os : OS) (w : World)
    (file_path normalized : string) :
  normalize_path os file_path = Ok normalized ->
  (List.length (file_messages_for normalized
                  (conversation_history
                     (fst (ensure_file_in_context os w file_path))))
   <= Nat.max 1 (List.length (file_messages_for normalized
                                (conversation_history w))))%nat.
Proof.
  intros N. unfold ensure_file_in_context. rewrite N.
  destruct (read_local_file os w normalized) as [a|e]; cbn [fst];
    [|destruct (is_OSError e); cbn [fst]; lia].
  destruct (marker_in_history _ _) eqn:M; cbn [fst negb]; [lia|].
  unfold file_messages_for. cbn [append_message conversation_history].
  rewrite filter_app, length_app.
  rewrite (filter_none _ _ (conversation_history w)).
  - pose proof (filter_length_le _
                  (fun msg => Role_eqb (role msg) system
                              && startswith (content msg) (file_marker normalized))
                  [file_content_message normalized a]) as L.
    cbn [List.length] in *. lia.
  - unfold marker_in_history in M. apply Forall_forall. intros msg Hm.
    destruct (startswith (content msg) (file_marker normalized)) eqn:P;
      [|now rewrite andb_false_r].
    apply prefix_contains in P.
    assert (X : existsb (fun msg => contains (file_marker normalized) (content msg))
                        (conversation_history w) = true)
      by (apply existsb_exists; eauto).
    congruence.
Qed.

End Dedup.

(* ================================================================== *)
(** * Further properties *)

(** ** RateLimiter: errors, delays and the size of the window *)

Section RateLimiterMore.

Local Open Scope Z_scope.

Lemma popleft_expired_length (now p : Z) (ts : list Z) :
  (List.length (popleft_expired now p ts) <= List.length ts)%nat.
Proof.
  destruct (popleft_expired_split now p ts) as (dropped & E & _).
  rewrite E at 2. rewrite length_app. lia.
Qed.


(** A limiter whose period is longer than [time.sleep] takes admits its
    first calls and fails on the first that has to wait. *)
Example RateLimiter_call_overflow :
  acquire_all (RateLimiter_init 1 (sleep_max + 5)) [(0, 0)]
  = Ok ({| max_calls := 1; period := sleep_max + 5; timestamps := [0] |}, [0]) /\
  acquire_all (RateLimiter_init 1 (sleep_max + 5)) [(0, 0); (3, 0)]
  = Raise (OverflowError "timestamp too large to convert to C _PyTime_t") /\
  acquire_all (RateLimiter_init 1 sleep_max) [(0, 0); (3, 0)]
  = Ok ({| max_calls := 1; period := sleep_max; timestamps := [0; sleep_max] |},
        [0; sleep_max]).
Proof. repeat split. Qed.

(** X2: When the call sleeps, the time asked for is not negative, and it is at
    most one period when no timestamp is ahead of the clock. *)
Theorem time_to_wait_bounds (rl : RateLimiter) (t1 d : Z) :
  time_to_wait rl t1 = Some d ->
  0 <= d /\ (Forall (fun a => a <= t1) (timestamps rl) -> d <= period rl).
Proof.
  unfold time_to_wait.
  destruct (popleft_expired_split t1 (period rl) (timestamps rl)) as (dr & E & _ & H).
  destruct (popleft_expired t1 (period rl) (timestamps rl)) as [|t0 W]; [discriminate|].
  destruct (_ >=? _); [|discriminate].
  intros [= <-]. split; [lia|].
  intros F. rewrite E in F. apply Forall_app in F. destruct F as [_ F].
  apply Forall_cons_iff in F. lia.
Qed.

Lemma time_to_wait_bounds_witness :
  0 <= 6 /\
  (Forall (fun a => a <= 5)
          (timestamps {| max_calls := 2; period := 10; timestamps := [1; 4] |}) ->
   6 <= period {| max_calls := 2; period := 10; timestamps := [1; 4] |}).
Proof.
  apply (time_to_wait_bounds {| max_calls := 2; period := 10; timestamps := [1; 4] |} 5 6).
  reflexivity.
Defined.

(** As long as the window and the calls to come number at most
    [max_calls], no call sleeps: each is admitted at its first reading. *)
Lemma acquire_all_undelayed (readings : list (Z * Z)) :
  forall rl,
    Z.of_nat (List.length (timestamps rl)) + Z.of_nat (List.length readings)
    <= max_calls rl ->
    exists rl',
      acquire_all rl readings = Ok (rl', map fst readings) /\
      max_calls rl' = max_calls rl /\ period rl' = period rl.
Proof.
  induction readings as [|[t1 t2] rest IH]; intros rl H.
  - exists rl. auto.
  - cbn [List.length] in H. cbn [acquire_all]. unfold RateLimiter_call.
    pose proof (popleft_expired_length t1 (period rl) (timestamps rl)) as L.
    destruct (Z.geb_spec (Z.of_nat (List.length (popleft_expired t1 (period rl) (timestamps rl))))
                         (max_calls rl)) as [G|G]; [lia|].
    destruct (IH {| max_calls := max_calls rl; period := period rl;
                    timestamps := popleft_expired t1 (period rl) (timestamps rl) ++ [t1] |})
      as (rl' & E & Em & Ep).
    { cbn [timestamps max_calls]. rewrite length_app. cbn [List.length]. lia. }
    exists rl'. rewrite E. auto.
Qed.

(** X3: The first [max_calls] acquisitions on a new limiter are never delayed,
    whatever the clock reads. *)
Theorem first_acquisitions_undelayed (max_calls period : Z) (readings : list (Z * Z)) :
  Z.of_nat (List.length readings) <= max_calls ->
  exists rl,
    acquire_all (RateLimiter_init max_calls period) readings
    = Ok (rl, map fst readings).
Proof.
  intros H.
  destruct (acquire_all_undelayed readings (RateLimiter_init max_calls period))
    as (rl & E & _); [simpl; lia|].
  now exists rl.
Qed.

Lemma first_acquisitions_undelayed_witness :
  exists rl,
    acquire_all (RateLimiter_init 5 10) [(3, 100); (3, 100); (2, 100)]
    = Ok (rl, map fst [(3, 100); (3, 100); (2, 100)]).
Proof.
  apply (first_acquisitions_undelayed 5 10 [(3, 100); (3, 100); (2, 100)]).
  simpl. lia.
Defined.

Variables m p : Z.

Lemma RateLimiter_call_window (rl rl' : RateLimiter) (t1 late now : Z) :
  RateLimiter_call rl t1 late = Ok (rl', now) ->
  timestamps rl' = popleft_expired t1 (period rl) (timestamps rl) ++ [now].
Proof.
  unfold RateLimiter_call.
  destruct (_ >=? _).
  - destruct (popleft_expired t1 (period rl) (timestamps rl)) as [|t0 W];
      [discriminate|].
    destruct (sleep_then_time _ _ _); [|discriminate]. now intros [= <- <-].
  - now intros [= <- <-].
Qed.

(** What the loop leaves in the window fits in one period, so there are at
    most [m] of it. *)
Lemma pruned_window_length (rl : RateLimiter) (log : list Z) (last t1 : Z) :
  window_inv m p rl log last -> last <= t1 ->
  Z.of_nat (List.length (popleft_expired t1 p (timestamps rl))) <= m.
Proof.
  intros (_ & _ & (old & El & _) & Fle & Sorted & R) Ht1.
  destruct (popleft_expired_split t1 p (timestamps rl)) as (dropped & Ew & _ & Hhd).
  set (W := popleft_expired t1 p (timestamps rl)) in *.
  assert (SW : StronglySorted Z.le W).
  { apply (StronglySorted_suffix dropped). now rewrite <- Ew. }
  assert (FW : Forall (fun a => t1 - p <= a <= t1 - p + p) W).
  { rewrite El, Ew, !Forall_app in Fle. destruct Fle as (_ & _ & Fle).
    destruct W as [|t0 W']; [constructor|].
    apply StronglySorted_inv in SW. destruct SW as [_ SW].
    apply Forall_cons_iff in Fle. destruct Fle as [F0 Fle].
    constructor; [lia|].
    rewrite Forall_forall in *. intros a Ha.
    specialize (SW a Ha). specialize (Fle a Ha). lia. }
  specialize (R (t1 - p)). unfold admitted_in in R.
  rewrite El, Ew, !filter_app, !length_app in R.
  rewrite (filter_all _ _ W) in R; [lia|].
  eapply Forall_impl; [|exact FW]. cbv beta. intros; lia.
Qed.

Lemma window_length_run (readings : list (Z * Z)) :
  0 < m ->
  forall rl log last rl' admitted,
    window_inv m p rl log last ->
    Z.of_nat (List.length (timestamps rl)) <= m + 1 ->
    clock_ok rl last readings = true ->
    acquire_all rl readings = Ok (rl', admitted) ->
    Z.of_nat (List.length (timestamps rl')) <= m + 1.
Proof.
  intros Hm. induction readings as [|[t1 late] rest IH];
    intros rl log last rl' admitted I L C E.
  - cbn in E. now injection E as <- _.
  - cbn [clock_ok] in C. apply andb_prop in C. destruct C as [C C3].
    apply andb_prop in C. destruct C as [C1 C2].
    cbn [acquire_all] in E.
    destruct (RateLimiter_call rl t1 late) as [[rl1 now]|] eqn:E1; [|discriminate].
    assert (I1 : window_inv m p rl1 (log ++ [now]) now).
    { apply (window_inv_keep m p rl rl1 log last t1 late now Hm I); auto; [lia|].
      intros d Hd. rewrite Hd in C2. lia. }
    destruct (acquire_all rl1 rest) as [[rl2 adm]|] eqn:E2; [|discriminate].
    injection E as <- _.
    apply (IH rl1 (log ++ [now]) now rl2 adm I1); auto.
    rewrite (RateLimiter_call_window _ _ _ _ _ E1), length_app.
    pose proof (pruned_window_length rl log last t1 I ltac:(lia)) as P.
    destruct I as (_ & Ep & _). rewrite Ep.
    cbn [List.length]. lia.
Qed.

End RateLimiterMore.

(** X4: Under a clock that never goes back and moves by more than [d] across
    a [time.sleep(d)], the window never holds more than [max_calls + 1]
    timestamps: the memory of the limiter is bounded. *)
Theorem rate_window_length (max_calls period : Z) (readings : list (Z * Z))
    (rl : RateLimiter) (admitted : list Z) :
  (0 < max_calls)%Z ->
  clock_ok_run (RateLimiter_init max_calls period) readings = true ->
  acquire_all (RateLimiter_init max_calls period) readings = Ok (rl, admitted) ->
  (Z.of_nat (List.length (timestamps rl)) <= max_calls + 1)%Z.
Proof.
  intros Hm C E.
  destruct readings as [|[t1 t2] rest].
  - cbn in E. injection E as <- _. simpl. lia.
  - apply (window_length_run max_calls period ((t1, t2) :: rest) Hm
             (RateLimiter_init max_calls period) [] t1 rl admitted); auto.
    + repeat split; simpl; try constructor; try lia. exists []. split; auto.
    + simpl. lia.
Qed.

Lemma rate_window_length_witness :
  (Z.of_nat (List.length
               (timestamps {| max_calls := 2; period := 10;
                              timestamps := [1; 11; 12]%Z |})) <= 2 + 1)%Z.
Proof.
  apply (rate_window_length 2 10 [(0, 0); (1, 0); (2, 1); (11, 1)]%Z
           {| max_calls := 2; period := 10; timestamps := [1; 11; 12]%Z |}
           [0; 1; 11; 12]%Z).
  - lia.
  - reflexivity.
  - reflexivity.
Defined.

(** ** FileWriter and SnippetPatcher: what a write and an edit change *)

Section WriterMore.

Import PyStr PosixPath.
Local Open Scope string_scope.

Variable os : OS.





End WriterMore.



(** A carriage return written is a line feed read. *)
Example create_file_carriage_return :
  let cr := String (ascii_of_nat 13) EmptyString in
  let lf := String (ascii_of_nat 10) EmptyString in
  read_local_file demo_os
    (fst (create_file demo_os demo_world "f.txt" ("a" ++ cr ++ "b" ++ cr ++ lf ++ "c")
            false ""))
    "f.txt"
  = Ok ("a" ++ lf ++ "b" ++ lf ++ "c")%string.
Proof. reflexivity. Qed.

(** A disk that fills up while the file is written: the file is left
    empty, the write is reported as failed and the log says nothing of
    it. *)
Example create_file_interrupted :
  create_file full_disk_os edit_world "m.py" "x = 2" false ""
  = (write_file edit_world "/home/u/proj/m.py" "",
     Failed (OSError "[Errno 28] No space left on device")) /\
  fs (write_file edit_world "/home/u/proj/m.py" "") "/home/u/proj/m.py" = Some "" /\
  fs edit_world "/home/u/proj/m.py" = Some "x = 1".
Proof. repeat split. Qed.




(** ** The edit of a file, end to end *)

Section EditMore.

Import PyStr PosixPath.
Local Open Scope string_scope.

Variable os : OS.




End EditMore.



(** The edit of a file on a full disk: the file is left empty and the
    edit is recorded as applied. *)
Example apply_diff_edit_interrupted :
  apply_diff_edit full_disk_os edit_world "m.py" "1" "2"
  = (append_message (write_file edit_world "/home/u/proj/m.py" "")
       {| role := system;
          content := "File operation: Applied diff edit to 'm.py'" |},
     Applied).
Proof. reflexivity. Qed.

Lemma snippet_ambiguous_occ_witness : 2 <= PyStr.occ "ab" "abab".
Proof. apply (snippet_ambiguous_occ "abab" "ab" "c" 2). reflexivity. Defined.


(** ** ConversationContext: putting files in context *)

Section ContextMore.

Import PyStr.

Variable os : OS.

Lemma marker_in_own_message (n c : string) :
  contains (file_marker n) (content (file_content_message n c)) = true.
Proof. apply prefix_contains. apply prefix_app. Qed.

Lemma file_content_message_is_file_context (n c : string) :
  is_file_context (file_content_message n c) = true.
Proof.
  unfold is_file_context. cbn [role file_content_message Role_eqb andb].
  apply prefix_contains. unfold file_content_message, file_marker. cbn [content].
  rewrite !app_assoc_s. apply prefix_app.
Qed.

Lemma marker_in_history_app (marker : string) (h l : list Message) :
  marker_in_history marker (h ++ l)
  = marker_in_history marker h || marker_in_history marker l.
Proof. apply existsb_app. Qed.

Lemma read_local_file_same_fs (w w' : World) (file_path : string) :
  fs w' = fs w -> read_local_file os w' file_path = read_local_file os w file_path.
Proof. intros E. unfold read_local_file. now rewrite E. Qed.

(** What a failed reading raises: an [OSError], or the [ValueError] of a
    content that does not decode. *)
Lemma read_local_file_raises (w : World) (file_path : string) (e : exn) :
  read_local_file os w file_path = Raise e ->
  is_OSError e = true \/
  exists msg, read_failure os file_path = Some (Undecodable msg) /\ e = ValueError msg.
Proof.
  unfold read_local_file.
  destruct (read_failure os file_path) as [[msg|msg]|].
  - intros [= <-]. now left.
  - destruct (resolve os file_path) as [q|]; [|intros [= <-]; now left].
    destruct (fs w q); intros [= <-]; [right; eauto | now left].
  - destruct (resolve os file_path) as [q|]; [|intros [= <-]; now left].
    destruct (fs w q); [discriminate | intros [= <-]; now left].
Qed.

(** What [ensure_file_in_context] lets out is a [ValueError]. *)
Lemma ensure_file_in_context_raises (w : World) (file_path : string) (e : exn) :
  snd (ensure_file_in_context os w file_path) = Raise e -> is_ValueError e = true.
Proof.
  unfold ensure_file_in_context.
  destruct (normalize_path os file_path) as [n|e0] eqn:N; cbn [snd].
  - destruct (read_local_file os w n) as [c|e1] eqn:R.
    + destruct (negb _); discriminate.
    + destruct (read_local_file_raises w n e1 R) as [O|(msg & _ & ->)].
      * rewrite O. discriminate.
      * cbn [is_OSError snd]. now intros [= <-].
  - intros [= <-]. apply normalize_path_raises_InvalidPath in N.
    now destruct e0.
Qed.

(** The five ways [ensure_file_in_context] ends. *)
Lemma ensure_file_in_context_cases (w : World) (file_path : string) :
  (exists e, normalize_path os file_path = Raise e /\
             ensure_file_in_context os w file_path = (w, Raise e)) \/
  (exists n,
      normalize_path os file_path = Ok n /\
      ((exists e, read_local_file os w n = Raise e /\
                  ensure_file_in_context os w file_path
                  = (w, if is_OSError e then Ok false else Raise e)) \/
       (exists c, read_local_file os w n = Ok c /\
                  marker_in_history (file_marker n) (conversation_history w) = true /\
                  ensure_file_in_context os w file_path = (w, Ok true)) \/
       (exists c, read_local_file os w n = Ok c /\
                  marker_in_history (file_marker n) (conversation_history w) = false /\
                  ensure_file_in_context os w file_path
                  = (append_message w (file_content_message n c), Ok true)))).
Proof.
  unfold ensure_file_in_context.
  destruct (normalize_path os file_path) as [n|e]; [right; exists n; split; auto|left; eauto].
  destruct (read_local_file os w n) as [c|e].
  - destruct (marker_in_history _ _) eqn:M; simpl; right; [left | right]; eauto.
  - left. exists e. split; auto. now destruct (is_OSError e).
Qed.

(** X13: When [ensure_file_in_context] answers [True], the marker of the file
    is in the log, the log is the old one or the old one and the content
    of the file, and no file has changed. *)
Theorem ensure_file_in_context_ensures (w w' : World) (file_path : string) :
  ensure_file_in_context os w file_path = (w', Ok true) ->
  exists n,
    normalize_path os file_path = Ok n /\
    marker_in_history (file_marker n) (conversation_history w') = true /\
    fs w' = fs w /\
    (conversation_history w' = conversation_history w \/
     exists c, read_local_file os w n = Ok c /\
               conversation_history w'
               = conversation_history w ++ [file_content_message n c]).
Proof.
  intros E.
  destruct (ensure_file_in_context_cases w file_path)
    as [(e & _ & E')|(n & N & [(e & _ & E')|[(c & R & M & E')|(c & R & M & E')]])];
    rewrite E' in E; try discriminate;
    try (destruct (is_OSError e); discriminate);
    injection E as <-; exists n.
  - repeat split; auto.
  - repeat split; auto.
    + cbn [append_message conversation_history].
      rewrite marker_in_history_app. apply orb_true_iff. right.
      cbn [marker_in_history existsb]. now rewrite marker_in_own_message.
    + right. exists c. auto.
Qed.

(** X14: A second call changes nothing more. *)
Theorem ensure_file_in_context_idempotent (w : World) (file_path : string) :
  ensure_file_in_context os (fst (ensure_file_in_context os w file_path)) file_path
  = (fst (ensure_file_in_context os w file_path),
     snd (ensure_file_in_context os w file_path)).
Proof.
  destruct (ensure_file_in_context_cases w file_path)
    as [(e & _ & E')|(n & N & [(e & _ & E')|[(c & R & M & E')|(c & R & M & E')]])];
    rewrite E'; cbn [fst snd]; auto.
  unfold ensure_file_in_context. rewrite N.
  rewrite (read_local_file_same_fs w (append_message w _) n eq_refl), R.
  cbn [append_message conversation_history].
  rewrite marker_in_history_app.
  replace (marker_in_history (file_marker n) [file_content_message n c]) with true.
  - now rewrite orb_true_r.
  - cbn [marker_in_history existsb]. now rewrite marker_in_own_message.
Qed.

Lemma file_messages_for_unmarked (n : string) (h : list Message) :
  marker_in_history (file_marker n) h = false -> file_messages_for n h = [].
Proof.
  intros M. unfold file_messages_for. apply filter_none.
  apply Forall_forall. intros msg Hm.
  destruct (startswith (content msg) (file_marker n)) eqn:P;
    [|now rewrite andb_false_r].
  apply prefix_contains in P.
  assert (X : existsb (fun msg => contains (file_marker n) (content msg)) h = true)
    by (apply existsb_exists; eauto).
  unfold marker_in_history in M. congruence.
Qed.

(** X15: [ensure_file_in_context] adds no second copy. When a message of the
    log holds the marker of the file, nothing changes. When none does, the
    log held no message with the content of the file; afterwards it holds
    exactly one, with the content read, if the file can be read, and
    nothing has changed if it cannot. *)
Theorem ensure_file_in_context_copies (w : World) (file_path n : string) :
  normalize_path os file_path = Ok n ->
  (marker_in_history (file_marker n) (conversation_history w) = true ->
   fst (ensure_file_in_context os w file_path) = w) /\
  (marker_in_history (file_marker n) (conversation_history w) = false ->
   file_messages_for n (conversation_history w) = [] /\
   (forall c,
       read_local_file os w n = Ok c ->
       file_messages_for n
         (conversation_history (fst (ensure_file_in_context os w file_path)))
       = [file_content_message n c]) /\
   (forall e,
       read_local_file os w n = Raise e ->
       fst (ensure_file_in_context os w file_path) = w)).
Proof.
  intros N. unfold ensure_file_in_context. rewrite N. split.
  - intros M. rewrite M.
    destruct (read_local_file os w n) as [c|e]; [reflexivity|].
    now destruct (is_OSError e).
  - intros M. rewrite M. split; [now apply file_messages_for_unmarked|].
    split.
    + intros c ->. cbn [negb fst append_message conversation_history].
      unfold file_messages_for. rewrite filter_app.
      rewrite (file_messages_for_unmarked n _ M : filter _ _ = []).
      cbn [filter app role file_content_message content Role_eqb andb].
      unfold startswith, file_marker.
      now rewrite (prefix_app ("Content of file '" ++ n ++ "'")).
    + intros e ->. now destruct (is_OSError e).
Qed.

Lemma dict_mem_keep (d : list (string * string)) (k v k' : string) :
  dict_mem d k' = true -> dict_mem (dict_set d k v) k' = true.
Proof.
  induction d as [|[k0 v0] d IH]; intros H; simpl in *; [discriminate|].
  destruct (String.eqb_spec k0 k) as [->|]; simpl in *; auto.
  destruct (String.eqb k0 k'); simpl in *; auto.
Qed.

Lemma dict_mem_set (d : list (string * string)) (k v : string) :
  dict_mem (dict_set d k v) k = true.
Proof.
  induction d as [|[k0 v0] d IH]; simpl.
  - now rewrite String.eqb_refl.
  - destruct (String.eqb_spec k0 k) as [->|N]; simpl.
    + now rewrite String.eqb_refl.
    + destruct (String.eqb_spec k0 k); [contradiction|]. exact IH.
Qed.

(** The loop over the guessed files changes no file and only adds to the
    log and to [valid_files]. *)
Lemma add_guessed_files_grows (paths : list string) :
  forall w vf,
    fs (fst (add_guessed_files os w vf paths)) = fs w /\
    (forall marker, marker_in_history marker (conversation_history w) = true ->
                    marker_in_history marker
                      (conversation_history (fst (add_guessed_files os w vf paths)))
                    = true) /\
    (forall vf' k, snd (add_guessed_files os w vf paths) = Ok vf' ->
                   dict_mem vf k = true -> dict_mem vf' k = true).
Proof.
  induction paths as [|path rest IH]; intros w vf; cbn [add_guessed_files fst snd].
  - repeat split; auto. now intros vf' k [= <-].
  - destruct (read_local_file os w path) as [c|e].
    + set (w1 := if negb _ then _ else w).
      destruct (IH w1 (dict_set vf path c)) as (F & H & D).
      assert (F1 : fs w1 = fs w) by (unfold w1; destruct (negb _); reflexivity).
      assert (H1 : forall marker,
                 marker_in_history marker (conversation_history w) = true ->
                 marker_in_history marker (conversation_history w1) = true).
      { intros marker Hm. unfold w1. destruct (negb _); auto.
        cbn [append_message conversation_history].
        rewrite marker_in_history_app, Hm. reflexivity. }
      repeat split; auto; [congruence|].
      intros vf' k E K. apply (D vf' k E). now apply dict_mem_keep.
    + destruct (is_OSError e); [apply IH|].
      cbn [fst snd]. repeat split; auto. discriminate.
Qed.

(** The loop ends without an exception when every file decodes. *)
Lemma add_guessed_files_returns (paths : list string) :
  (forall q msg, In q paths -> read_failure os q <> Some (Undecodable msg)) ->
  forall w vf, exists vf', snd (add_guessed_files os w vf paths) = Ok vf'.
Proof.
  induction paths as [|path rest IH]; intros D w vf; cbn [add_guessed_files].
  - eexists. reflexivity.
  - assert (D' : forall q msg, In q rest -> read_failure os q <> Some (Undecodable msg))
      by (intros q msg I; apply D; now right).
    destruct (read_local_file os w path) as [c|e] eqn:R; [now apply IH|].
    destruct (read_local_file_raises w path e R) as [O|(msg & Rf & _)].
    + rewrite O. now apply IH.
    + exfalso. apply (D path msg); [now left | exact Rf].
Qed.

(** X16: The loop over the guessed files changes no file; when every file of
    the list decodes it ends without an exception, and after it every
    path of the list that could be read is among [valid_files] and has its
    marker in the log. *)
Theorem add_guessed_files_in_context (paths : list string) (w : World)
    (valid_files : list (string * string)) (path content : string) :
  In path paths ->
  read_local_file os w path = Ok content ->
  (forall q msg, In q paths -> read_failure os q <> Some (Undecodable msg)) ->
  exists valid_files',
    snd (add_guessed_files os w valid_files paths) = Ok valid_files' /\
    fs (fst (add_guessed_files os w valid_files paths)) = fs w /\
    marker_in_history (file_marker path)
      (conversation_history (fst (add_guessed_files os w valid_files paths))) = true /\
    dict_mem valid_files' path = true.
Proof.
  intros I R D.
  destruct (add_guessed_files_returns paths D w valid_files) as [vf' E].
  exists vf'. split; [exact E|].
  split; [apply add_guessed_files_grows|].
  revert w valid_files I R E.
  induction paths as [|p rest IH]; intros w vf I R E; [contradiction|].
  assert (D' : forall q msg, In q rest -> read_failure os q <> Some (Undecodable msg))
    by (intros q msg I'; apply D; now right).
  cbn [add_guessed_files] in *.
  destruct I as [->|I].
  - rewrite R in *.
    set (w1 := if negb _ then _ else w) in *.
    destruct (add_guessed_files_grows rest w1 (dict_set vf path content)) as (_ & H & K).
    split; [apply H | apply (K vf' path E), dict_mem_set].
    unfold w1. destruct (marker_in_history _ _) eqn:M; cbn [negb]; auto.
    cbn [append_message conversation_history].
    rewrite marker_in_history_app. cbn [marker_in_history existsb].
    now rewrite marker_in_own_message, orb_true_r.
  - destruct (read_local_file os w p) as [c|e] eqn:Rp.
    + set (w1 := if negb _ then _ else w) in *.
      assert (F1 : fs w1 = fs w) by (unfold w1; destruct (negb _); reflexivity).
      apply (IH D' w1 (dict_set vf p c)); auto.
      now rewrite (read_local_file_same_fs w w1 path F1).
    + destruct (is_OSError e); [|discriminate]. apply (IH D' w vf); auto.
Qed.

(** X17: The edits kept for the user are edits of the response with their path
    replaced by what [normalize_path] returns for it; an edit whose path is
    refused is dropped, and no file changes. *)
Theorem normalize_edits_kept (edits : list FileToEdit.t) :
  forall w valid_files,
    fs (fst (normalize_edits os w valid_files edits)) = fs w /\
    Forall (fun kept =>
              exists edit,
                In edit edits /\
                normalize_path os (FileToEdit.path edit) = Ok (FileToEdit.path kept) /\
                FileToEdit.original_snippet kept = FileToEdit.original_snippet edit /\
                FileToEdit.new_snippet kept = FileToEdit.new_snippet edit)
           (snd (normalize_edits os w valid_files edits)).
Proof.
  induction edits as [|edit rest IH]; intros w vf; cbn [normalize_edits fst snd].
  - auto.
  - assert (Weak : forall w0,
               fs w0 = fs w ->
               fs (fst (normalize_edits os w0 vf rest)) = fs w /\
               Forall (fun kept =>
                         exists e, In e (edit :: rest) /\
                           normalize_path os (FileToEdit.path e) = Ok (FileToEdit.path kept) /\
                           FileToEdit.original_snippet kept = FileToEdit.original_snippet e /\
                           FileToEdit.new_snippet kept = FileToEdit.new_snippet e)
                      (snd (normalize_edits os w0 vf rest))).
    { intros w0 F0. destruct (IH w0 vf) as [F K]. split; [congruence|].
      eapply Forall_impl; [|exact K]. cbv beta.
      intros k (e & I & H). exists e. split; [now right | exact H]. }
    destruct (normalize_path os (FileToEdit.path edit)) as [n|] eqn:N;
      [|now apply Weak].
    assert (Keep : forall w0,
               fs w0 = fs w ->
               let r := normalize_edits os w0 vf rest in
               fs (fst r) = fs w /\
               Forall (fun kept =>
                         exists e, In e (edit :: rest) /\
                           normalize_path os (FileToEdit.path e) = Ok (FileToEdit.path kept) /\
                           FileToEdit.original_snippet kept = FileToEdit.original_snippet e /\
                           FileToEdit.new_snippet kept = FileToEdit.new_snippet e)
                      (FileToEdit.mk n (FileToEdit.original_snippet edit)
                                     (FileToEdit.new_snippet edit) :: snd r)).
    { intros w0 F0 r. destruct (Weak w0 F0) as [F K]. split; auto.
      constructor; auto. exists edit. cbn. repeat split; auto. }
    destruct (dict_mem vf n).
    + specialize (Keep w eq_refl). cbv zeta in Keep.
      destruct (normalize_edits os w vf rest). exact Keep.
    + destruct (ensure_file_in_context_cases w n)
        as [(e & _ & E')|(n' & N' & [(e & _ & E')|[(c & R & M & E')|(c & R & M & E')]])];
        rewrite E'; try (now apply Weak);
        try (destruct (is_OSError e); now apply Weak).
      * specialize (Keep w eq_refl). cbv zeta in Keep.
        destruct (normalize_edits os w vf rest). exact Keep.
      * specialize (Keep (append_message w (file_content_message n' c)) eq_refl).
        cbv zeta in Keep.
        destruct (normalize_edits os _ vf rest). exact Keep.
Qed.

(** X18: Every path that [guess_files_in_message] returns was returned by
    [normalize_path], so its text starts with the text of the workspace
    root; there is at most one per word of the message. *)
Theorem guess_files_in_workspace (user_message : string) :
  Forall (fun p =>
            exists workspace,
              realpath os (PosixPath.to_string (PosixPath.parse (getcwd os)))
              = Ok workspace /\
              startswith p workspace = true)
         (guess_files_in_message os user_message) /\
  (List.length (guess_files_in_message os user_message)
   <= List.length (split_ws user_message))%nat.
Proof.
  unfold guess_files_in_message.
  induction (split_ws user_message) as [|word rest [IH1 IH2]]; cbn [flat_map].
  - split; [constructor | auto].
  - destruct (_ || _); [|split; [exact IH1 | cbn [List.length app]; lia]].
    destruct (normalize_path os _) as [n|] eqn:N;
      [|split; [exact IH1 | cbn [List.length app]; lia]].
    split; [|cbn [List.length app]; lia].
    constructor; auto. apply normalize_path_ok in N. tauto.
Qed.

End ContextMore.

Lemma ensure_file_in_context_ensures_witness :
  exists n,
    normalize_path demo_os "d/a.py" = Ok n /\
    marker_in_history (file_marker n)
      (conversation_history (fst (ensure_file_in_context demo_os demo_world "d/a.py")))
    = true /\
    fs (fst (ensure_file_in_context demo_os demo_world "d/a.py")) = fs demo_world /\
    (conversation_history (fst (ensure_file_in_context demo_os demo_world "d/a.py"))
     = conversation_history demo_world \/
     exists c, read_local_file demo_os demo_world n = Ok c /\
               conversation_history
                 (fst (ensure_file_in_context demo_os demo_world "d/a.py"))
               = conversation_history demo_world ++ [file_content_message n c]).
Proof.
  apply (ensure_file_in_context_ensures demo_os demo_world _ "d/a.py"). reflexivity.
Defined.

Lemma ensure_file_in_context_copies_witness :
  (marker_in_history (file_marker "/home/u/proj/d/a.py")
     (conversation_history demo_world) = true ->
   fst (ensure_file_in_context demo_os demo_world "d/a.py") = demo_world) /\
  (marker_in_history (file_marker "/home/u/proj/d/a.py")
     (conversation_history demo_world) = false ->
   file_messages_for "/home/u/proj/d/a.py" (conversation_history demo_world) = [] /\
   (forall c,
       read_local_file demo_os demo_world "/home/u/proj/d/a.py" = Ok c ->
       file_messages_for "/home/u/proj/d/a.py"
         (conversation_history (fst (ensure_file_in_context demo_os demo_world "d/a.py")))
       = [file_content_message "/home/u/proj/d/a.py" c]) /\
   (forall e,
       read_local_file demo_os demo_world "/home/u/proj/d/a.py" = Raise e ->
       fst (ensure_file_in_context demo_os demo_world "d/a.py") = demo_world)).
Proof.
  apply (ensure_file_in_context_copies demo_os demo_world "d/a.py"
           "/home/u/proj/d/a.py").
  reflexivity.
Defined.

(** A file that the log quotes in a question is taken to be in context:
    no message with its content is added. *)
Example ensure_file_in_context_quoted :
  let w := {| fs := fs demo_world;
              conversation_history :=
                [{| role := user;
                    content := "What does Content of file '/home/u/proj/d/a.py' mean?" |}] |} in
  ensure_file_in_context demo_os w "d/a.py" = (w, Ok true) /\
  file_messages_for "/home/u/proj/d/a.py" (conversation_history w) = [].
Proof. split; reflexivity. Qed.

Lemma add_guessed_files_in_context_witness :
  exists valid_files',
    snd (add_guessed_files demo_os demo_world []
           ["/home/u/proj/x.py"; "/home/u/proj/d/a.py"]) = Ok valid_files' /\
    fs (fst (add_guessed_files demo_os demo_world []
               ["/home/u/proj/x.py"; "/home/u/proj/d/a.py"])) = fs demo_world /\
    marker_in_history (file_marker "/home/u/proj/d/a.py")
      (conversation_history
         (fst (add_guessed_files demo_os demo_world []
                 ["/home/u/proj/x.py"; "/home/u/proj/d/a.py"]))) = true /\
    dict_mem valid_files' "/home/u/proj/d/a.py" = true.
Proof.
  apply (add_guessed_files_in_context demo_os
           ["/home/u/proj/x.py"; "/home/u/proj/d/a.py"] demo_world []
           "/home/u/proj/d/a.py" "xxxxxxxxxx").
  - right. left. reflexivity.
  - reflexivity.
  - intros q msg _. discriminate.
Defined.

(** ** ConversationContext: pruning and rebuilding *)

Section LogMore.

Import PyStr.

Lemma trim_split (h : list Message) :
  exists kept,
    trim_conversation_history h = filter is_system h ++ kept /\
    Forall (fun msg => is_system msg = false) kept /\
    (List.length kept <= 20)%nat.
Proof.
  unfold trim_conversation_history. fold is_system.
  change (filter (fun msg => negb (Role_eqb (role msg) system)) h)
    with (filter (fun msg => negb (is_system msg)) h).
  set (others := filter (fun msg => negb (is_system msg)) h).
  assert (Fo : Forall (fun msg => is_system msg = false) others).
  { eapply Forall_impl; [|apply Forall_filter_true]. cbv beta.
    intros msg H. now destruct (is_system msg). }
  change (10 * 2) with 20.
  destruct (Nat.ltb_spec 20 (List.length others)) as [L|L].
  - destruct (last_n_suffix _ 20 others) as (dropped & E & Len).
    exists (last_n 20 others). repeat split; auto; try lia.
    rewrite E in Fo. apply Forall_app in Fo. tauto.
  - exists others. repeat split; auto.
Qed.

(** X19: Pruning a pruned log changes nothing. *)
Theorem trim_conversation_history_idempotent (h : list Message) :
  trim_conversation_history (trim_conversation_history h)
  = trim_conversation_history h.
Proof.
  destruct (trim_split h) as (kept & E & Fk & L). rewrite E.
  unfold trim_conversation_history. fold is_system.
  change (fun msg => negb (Role_eqb (role msg) system))
    with (fun msg => negb (is_system msg)).
  rewrite !filter_app.
  rewrite (filter_all _ is_system (filter is_system h)) by apply Forall_filter_true.
  rewrite (filter_none _ is_system kept) by exact Fk.
  rewrite (filter_none _ (fun msg => negb (is_system msg)) (filter is_system h)).
  - rewrite (filter_all _ (fun msg => negb (is_system msg)) kept).
    + rewrite app_nil_r. cbn [app]. change (10 * 2) with 20.
      destruct (Nat.ltb_spec 20 (List.length kept)); [lia | reflexivity].
    + eapply Forall_impl; [|exact Fk]. cbv beta. now intros msg ->.
  - eapply Forall_impl; [|apply Forall_filter_true]. cbv beta. now intros msg ->.
Qed.

(** X20: A log that starts with a system message still starts with it after
    pruning, so the rebuild of a pruned log keeps the same first
    message. *)
Theorem rebuild_after_trim_keeps_first (first : Message) (rest : list Message)
    (user_message : string) :
  role first = system ->
  exists tail,
    rebuild_for_request (trim_conversation_history (first :: rest)) user_message
    = Ok (first :: tail).
Proof.
  intros R.
  destruct (trim_split (first :: rest)) as (kept & E & _). rewrite E.
  cbn [filter]. unfold is_system at 1. rewrite R. cbn [Role_eqb app].
  rewrite rebuild_for_request_eq. eauto.
Qed.

Lemma filter_filter_implied (A : Type) (f g : A -> bool) (l : list A) :
  (forall a, g a = true -> f a = true) -> filter g (filter f l) = filter g l.
Proof.
  intros H. induction l as [|a l IH]; simpl; auto.
  destruct (f a) eqn:F; simpl; rewrite IH; auto.
  destruct (g a) eqn:G; auto. rewrite (H a G) in F. discriminate.
Qed.

Lemma prefix_app_l (a b s : string) :
  String.prefix (a ++ b)%string s = true -> String.prefix a s = true.
Proof.
  intros H. apply prefix_split in H. rewrite H, app_assoc_s. apply prefix_app.
Qed.

(** X21: The rebuild keeps every message that carries the content of a file,
    copies of one file included: for each path the messages for it are the
    same before and after. *)
Theorem rebuild_keeps_file_messages (first : Message) (rest : list Message)
    (user_message p : string) :
  exists rebuilt,
    rebuild_for_request (first :: rest) user_message = Ok rebuilt /\
    file_messages_for p rebuilt = file_messages_for p (first :: rest).
Proof.
  rewrite rebuild_for_request_eq. eexists. split; [reflexivity|].
  destruct (kept_pairs_split (filter is_user_or_assistant rest)) as (dropped & E & _).
  assert (Fp : Forall (fun m => is_user_or_assistant m = true)
                      (kept_pairs (filter is_user_or_assistant rest))).
  { assert (X := Forall_filter_true _ is_user_or_assistant rest).
    rewrite E in X. apply Forall_app in X. tauto. }
  unfold file_messages_for. cbn [filter]. f_equal.
  rewrite !filter_app.
  rewrite filter_filter_implied.
  - rewrite (filter_none _ _ (kept_pairs _)).
    + cbn [filter role Role_eqb andb]. now rewrite !app_nil_r.
    + eapply Forall_impl; [|exact Fp]. cbv beta.
      intros m H. unfold is_user_or_assistant in H. now destruct (role m).
  - intros m H. apply andb_prop in H. destruct H as [H1 H2].
    unfold is_file_context. rewrite H1. cbn [andb].
    apply prefix_contains. unfold startswith, file_marker in H2.
    now apply prefix_app_l in H2.
Qed.

(** X22: What survives a rebuild: the first message, the messages with the
    content of a file, and user and assistant messages. The records of
    file operations, system messages without the file marker, are dropped;
    every file-content message is kept. *)
Theorem rebuild_survivors (first : Message) (rest rebuilt : list Message)
    (user_message : string) :
  rebuild_for_request (first :: rest) user_message = Ok rebuilt ->
  (forall m, In m rebuilt ->
             m = first \/ is_file_context m = true \/ is_user_or_assistant m = true) /\
  (forall m, In m rest -> is_file_context m = true -> In m rebuilt).
Proof.
  rewrite rebuild_for_request_eq. intros [= <-].
  destruct (kept_pairs_split (filter is_user_or_assistant rest)) as (dropped & E & _).
  split.
  - intros m [->|I]; [now left|]. right.
    rewrite !in_app_iff in I. destruct I as [I|[I|[<-|[]]]].
    + apply filter_In in I. tauto.
    + right.
      assert (I' : In m (filter is_user_or_assistant rest))
        by (rewrite E; apply in_or_app; now left).
      apply filter_In in I'. tauto.
    + now right.
  - intros m I F. right. apply in_or_app. left. apply filter_In. auto.
Qed.

End LogMore.

Lemma rebuild_after_trim_keeps_first_witness :
  exists tail,
    rebuild_for_request
      (trim_conversation_history
         ({| role := system; content := "prompt" |}
            :: [{| role := user; content := "q" |};
                {| role := system; content := "Content of file '/ws/f': v" |}]))
      "next"
    = Ok ({| role := system; content := "prompt" |} :: tail).
Proof.
  apply (rebuild_after_trim_keeps_first {| role := system; content := "prompt" |}).
  reflexivity.
Defined.

Lemma rebuild_survivors_witness :
  (forall m,
      In m [{| role := system; content := "prompt" |};
            {| role := system; content := "Content of file '/ws/f': v" |};
            {| role := user; content := "next" |}] ->
      m = {| role := system; content := "prompt" |}
      \/ is_file_context m = true \/ is_user_or_assistant m = true) /\
  (forall m,
      In m [{| role := system; content := "File operation: Applied diff edit to '/ws/f'" |};
            {| role := system; content := "Content of file '/ws/f': v" |};
            {| role := user; content := "q" |}] ->
      is_file_context m = true ->
      In m [{| role := system; content := "prompt" |};
            {| role := system; content := "Content of file '/ws/f': v" |};
            {| role := user; content := "next" |}]).
Proof.
  apply (rebuild_survivors {| role := system; content := "prompt" |}
           [{| role := system; content := "File operation: Applied diff edit to '/ws/f'" |};
            {| role := system; content := "Content of file '/ws/f': v" |};
            {| role := user; content := "q" |}]
           _ "next").
  reflexivity.
Defined.

(** ** DirectoryIngester: what a scan adds, skips and leaves alone *)

Section IngesterMore.

Import PyStr.
Local Open Scope Z_scope.

Variable os : OS.
Variable limits : ScanLimits.

(** One file: skipped, or added when every test lets it through. *)
Lemma scan_file_effect (root : string) (st : ScanState) (file : string) :
  (exists entry, scan_file os limits root st file = skip st entry) \/
  (exists file_size n c,
      startswith file "." = false /\
      str_in file excluded_files = false /\
      str_in (lower (snd (splitext file))) excluded_extensions = false /\
      getsize os (path_join root file) = Some file_size /\
      file_size <= max_file_size limits /\
      total_size st + file_size <= max_total_size limits /\
      is_binary_file os (path_join root file) = false /\
      normalize_path os (path_join root file) = Ok n /\
      read_local_file os (scan_world st) n = Ok c /\
      scan_file os limits root st file
      = {| skipped_files := skipped_files st;
           added_files := added_files st ++ [n];
           total_files_processed := total_files_processed st + 1;
           total_size := total_size st + file_size;
           scan_world := append_message (scan_world st) (file_content_message n c) |}).
Proof.
  unfold scan_file.
  destruct (startswith file ".") eqn:H1; [left; eexists; reflexivity|].
  destruct (str_in file excluded_files) eqn:H2; [left; eexists; reflexivity|]. cbn [orb].
  destruct (str_in _ excluded_extensions) eqn:H3; [left; eexists; reflexivity|].
  destruct (getsize os _) as [file_size|] eqn:H4; [|left; eexists; reflexivity].
  destruct (Z.gtb_spec file_size (max_file_size limits)); [left; eexists; reflexivity|].
  destruct (Z.gtb_spec (total_size st + file_size) (max_total_size limits));
    [left; eexists; reflexivity|].
  destruct (is_binary_file os _) eqn:H5; [left; eexists; reflexivity|].
  destruct (normalize_path os _) as [n|] eqn:H6; [|left; eexists; reflexivity].
  destruct (read_local_file os _ _) as [c|e] eqn:H7;
    [|left; destruct (is_OSError e); eexists; reflexivity].
  right. exists file_size, n, c. repeat split; auto.
Qed.

Lemma scan_progress_refl (st : ScanState) : scan_progress 0 st st.
Proof.
  split; auto. exists [], [], []. rewrite !app_nil_r. repeat split; auto.
  simpl. lia.
Qed.

Lemma scan_progress_trans (j k : nat) (a b c : ScanState) :
  scan_progress j a b -> scan_progress k b c -> scan_progress (j + k) a c.
Proof.
  intros (F1 & na1 & ns1 & m1 & A1 & S1 & H1 & L1 & P1 & T1 & K1)
         (F2 & na2 & ns2 & m2 & A2 & S2 & H2 & L2 & P2 & T2 & K2).
  split; [congruence|].
  exists (na1 ++ na2)%list, (ns1 ++ ns2)%list, (m1 ++ m2)%list.
  rewrite A2, A1, S2, S1, H2, H1, T2, T1, !length_app, <- !app_assoc.
  repeat split; auto; try lia.
  apply Forall_app; auto.
Qed.

Lemma scan_file_progress (root : string) (st : ScanState) (file : string) :
  scan_progress 1 st (scan_file os limits root st file).
Proof.
  destruct (scan_file_effect root st file)
    as [[entry ->]|(sz & n & c & _ & _ & _ & _ & _ & _ & _ & _ & _ & ->)].
  - split; auto. exists [], [entry], []. rewrite !app_nil_r.
    repeat split; auto. simpl. lia.
  - split; auto. exists [n], [], [file_content_message n c]. rewrite !app_nil_r.
    repeat split; auto.
    constructor; auto. apply file_content_message_is_file_context.
Qed.

Lemma scan_files_progress (root : string) (files : list string) :
  forall st,
    exists k,
      scan_progress k st (scan_files os limits root files st) /\
      (k <= List.length files)%nat /\
      (limit_reached limits (scan_files os limits root files st) = false ->
       k = List.length files).
Proof.
  induction files as [|file rest IH]; intros st; cbn [scan_files].
  - exists 0%nat. split; [apply scan_progress_refl | auto].
  - destruct (limit_reached limits st) eqn:L.
    + exists 0%nat. split; [apply scan_progress_refl|].
      split; [lia | congruence].
    + destruct (IH (scan_file os limits root st file)) as (k & P & B & E).
      exists (1 + k)%nat. split.
      * eapply scan_progress_trans; [apply scan_file_progress | exact P].
      * cbn [List.length]. split; [lia|]. intros H. rewrite (E H). reflexivity.
Qed.

Lemma scan_walk_progress (visits : list (string * list string)) :
  forall st,
    exists k,
      scan_progress k st (scan_walk os limits visits st) /\
      (k <= files_listed visits)%nat /\
      (limit_reached limits (scan_walk os limits visits st) = false ->
       k = files_listed visits).
Proof.
  unfold files_listed.
  induction visits as [|[root files] rest IH]; intros st; cbn [scan_walk flat_map snd].
  - exists 0%nat. split; [apply scan_progress_refl | auto].
  - destruct (limit_reached limits st) eqn:L.
    + exists 0%nat. split; [apply scan_progress_refl|].
      split; [lia | congruence].
    + destruct (scan_files_progress root files st) as (k1 & P1 & B1 & E1).
      destruct (IH (scan_files os limits root files st)) as (k2 & P2 & B2 & E2).
      exists (k1 + k2)%nat. rewrite length_app. split.
      * eapply scan_progress_trans; eauto.
      * split; [lia|]. intros H. rewrite (E2 H).
        destruct (limit_reached limits (scan_files os limits root files st)) eqn:L1.
        -- rewrite (scan_walk_stopped os limits rest _ L1) in H. congruence.
        -- now rewrite (E1 eq_refl).
Qed.

(** X23: A file that is added passed every test: its name does not start with
    a dot and is not excluded, its extension is not excluded, its size is
    known and within both limits, it is not binary, its path is accepted by
    [normalize_path] and it can be read. *)
Theorem scan_file_admission (root : string) (st : ScanState) (file : string) :
  added_files (scan_file os limits root st file) <> added_files st ->
  exists file_size n c,
    startswith file "." = false /\
    str_in file excluded_files = false /\
    str_in (lower (snd (splitext file))) excluded_extensions = false /\
    getsize os (path_join root file) = Some file_size /\
    file_size <= max_file_size limits /\
    total_size st + file_size <= max_total_size limits /\
    is_binary_file os (path_join root file) = false /\
    normalize_path os (path_join root file) = Ok n /\
    read_local_file os (scan_world st) n = Ok c /\
    added_files (scan_file os limits root st file) = (added_files st ++ [n])%list.
Proof.
  intros H.
  destruct (scan_file_effect root st file)
    as [[entry E]|(sz & n & c & X1 & X2 & X3 & X4 & X5 & X6 & X7 & X8 & X9 & E)].
  - rewrite E in H. now contradiction H.
  - exists sz, n, c. rewrite E. repeat split; auto.
Qed.

End IngesterMore.

(** X24: A scan changes no file; it adds to the log one file-content message
    for each file added and nothing else; the count it reports is the
    number of files added. *)
Theorem scan_read_only (os : OS) (w : World) (directory_path : string)
    (tree : dir_tree) :
  fs (scan_world (add_directory_to_conversation os w directory_path tree)) = fs w /\
  total_files_processed (add_directory_to_conversation os w directory_path tree)
  = Z.of_nat (List.length
                (added_files (add_directory_to_conversation os w directory_path tree))) /\
  exists msgs,
    conversation_history
      (scan_world (add_directory_to_conversation os w directory_path tree))
    = conversation_history w ++ msgs /\
    List.length msgs
    = List.length (added_files (add_directory_to_conversation os w directory_path tree)) /\
    Forall (fun msg => is_file_context msg = true) msgs.
Proof.
  unfold add_directory_to_conversation, scan_directory.
  destruct (scan_walk_progress os source_limits (walk directory_path tree) (scan_start w))
    as (k & (F & na & ns & msgs & A & S & H & L & P & T & K) & _).
  cbn [scan_start added_files skipped_files scan_world total_files_processed app] in *.
  rewrite A, T. repeat split; auto. exists msgs. auto.
Qed.

(** X25: Every file is looked at once at most: the files added and the entries
    skipped number at most the files listed, and exactly that many when
    the scan ends without having reached a limit. *)
Theorem scan_accounts_for_files (os : OS) (w : World) (directory_path : string)
    (tree : dir_tree) :
  (List.length (added_files (add_directory_to_conversation os w directory_path tree))
   + List.length (skipped_files (add_directory_to_conversation os w directory_path tree))
   <= files_listed (walk directory_path tree))%nat /\
  (limit_reached source_limits
     (add_directory_to_conversation os w directory_path tree) = false ->
   (List.length (added_files (add_directory_to_conversation os w directory_path tree))
    + List.length (skipped_files (add_directory_to_conversation os w directory_path tree))
    = files_listed (walk directory_path tree))%nat).
Proof.
  unfold add_directory_to_conversation, scan_directory.
  destruct (scan_walk_progress os source_limits (walk directory_path tree) (scan_start w))
    as (k & (F & na & ns & msgs & A & S & H & L & P & T & K) & B & E).
  cbn [scan_start added_files skipped_files scan_world total_files_processed app] in *.
  rewrite A, S. split; [lia|]. intros X. specialize (E X). lia.
Qed.

Lemma scan_accounts_for_files_witness :
  (List.length (added_files (add_directory_to_conversation demo_os demo_world
                               "/home/u/proj/d"
                               (Dir "d" ["a.py"; "b.png"] [Dir ".git" ["config"] []])))
   + List.length (skipped_files (add_directory_to_conversation demo_os demo_world
                                   "/home/u/proj/d"
                                   (Dir "d" ["a.py"; "b.png"] [Dir ".git" ["config"] []])))
   = files_listed (walk "/home/u/proj/d"
                     (Dir "d" ["a.py"; "b.png"] [Dir ".git" ["config"] []])))%nat.
Proof.
  apply (proj2 (scan_accounts_for_files demo_os demo_world "/home/u/proj/d"
                  (Dir "d" ["a.py"; "b.png"] [Dir ".git" ["config"] []]))).
  reflexivity.
Defined.

Lemma scan_file_admission_witness :
  exists file_size n c,
    PyStr.startswith "a.py" "." = false /\
    str_in "a.py" excluded_files = false /\
    str_in (PyStr.lower (snd (splitext "a.py"))) excluded_extensions = false /\
    getsize demo_os (path_join "/home/u/proj/d" "a.py") = Some file_size /\
    (file_size <= max_file_size source_limits)%Z /\
    (total_size (scan_start demo_world) + file_size <= max_total_size source_limits)%Z /\
    is_binary_file demo_os (path_join "/home/u/proj/d" "a.py") = false /\
    normalize_path demo_os (path_join "/home/u/proj/d" "a.py") = Ok n /\
    read_local_file demo_os (scan_world (scan_start demo_world)) n = Ok c /\
    added_files (scan_file demo_os source_limits "/home/u/proj/d"
                   (scan_start demo_world) "a.py")
    = added_files (scan_start demo_world) ++ [n].
Proof.
  apply (scan_file_admission demo_os source_limits "/home/u/proj/d"
           (scan_start demo_world) "a.py").
  vm_compute. discriminate.
Defined.

(** ** The extension test of the ingester *)

Section Extensions.

Import PyStr.

Lemma from_last_dot_shape (s e : string) :
  from_last_dot s = Some e ->
  exists r, e = String "." r /\ from_last_dot r = None.
Proof.
  induction s as [|c s IH]; cbn [from_last_dot]; [discriminate|].
  destruct (from_last_dot s) as [e'|] eqn:F.
  - intros [= <-]. now apply IH.
  - destruct (Ascii.eqb_spec c ".") as [->|]; [|discriminate].
    intros [= <-]. eauto.
Qed.

Lemma lower_ascii_dot (c : ascii) :
  Ascii.eqb (lower_ascii c) "." = Ascii.eqb c ".".
Proof. destruct c as [[] [] [] [] [] [] [] []]; reflexivity. Qed.

Lemma lower_no_dot (r : string) :
  from_last_dot r = None -> from_last_dot (lower r) = None.
Proof.
  induction r as [|c r IH]; cbn [from_last_dot lower]; auto.
  destruct (from_last_dot r); [discriminate|].
  rewrite (IH eq_refl), lower_ascii_dot.
  now destruct (Ascii.eqb c ".").
Qed.

(** X26: The extension that [os.path.splitext] returns holds one dot at most,
    so the six entries of [excluded_extensions] with two dots exclude no
    file: [app.min.js] has the extension [.js]. *)
Theorem two_dot_extensions_never_match (file : string) :
  str_in (lower (snd (splitext file))) two_dot_extensions = false.
Proof.
  assert (K : forall r, from_last_dot r = None ->
                        str_in (String "." r) two_dot_extensions = false).
  { intros r H. unfold str_in, two_dot_extensions. cbn [existsb].
    repeat match goal with
           | |- context [String.eqb (String "." r) ?e] =>
               destruct (String.eqb_spec (String "." r) e) as [E|_];
               [exfalso; injection E as E; subst r; vm_compute in H; discriminate|]
           end.
    reflexivity. }
  unfold splitext.
  destruct (from_last_dot file) as [e|] eqn:F; [|reflexivity].
  destruct (all_dots _); [reflexivity|]. cbn [snd].
  destruct (from_last_dot_shape file e F) as (r & -> & N).
  cbn [lower]. change (lower_ascii ".") with "."%char.
  apply K. now apply lower_no_dot.
Qed.

Example minified_script_not_excluded :
  splitext "app.min.js" = ("app.min", ".js") /\
  str_in (lower (snd (splitext "app.min.js"))) excluded_extensions = false /\
  str_in (lower (snd (splitext "Logo.PNG"))) excluded_extensions = true.
Proof. repeat split. Qed.

End Extensions.

(** ** The [/add] command *)

Section AddCommand.

Import PyStr.

Variable os : OS.
Variable isdir : string -> bool.
Variable listing : string -> dir_tree.

(** X27: Whatever [/add] does when it returns, it changes no file and only
    appends file-content messages to the log; an input that is not the
    command changes nothing and is left to the caller. *)
Theorem try_handle_add_command_effect (w w' : World) (user_input : string)
    (handled : bool) :
  try_handle_add_command os isdir listing w user_input = Ok (w', handled) ->
  fs w' = fs w /\
  (exists msgs,
      conversation_history w' = conversation_history w ++ msgs /\
      Forall (fun msg => is_file_context msg = true) msgs) /\
  (handled = false -> w' = w).
Proof.
  unfold try_handle_add_command.
  destruct (startswith _ _).
  - destruct (normalize_path os _) as [n|]; [|discriminate].
    destruct (isdir n).
    + intros [= <- <-].
      unfold add_directory_to_conversation, scan_directory.
      destruct (scan_walk_progress os source_limits (walk n (listing n)) (scan_start w))
        as (k & (F & na & ns & msgs & A & S & H & L & P & T & K) & _).
      cbn [scan_start scan_world] in *.
      split; [exact F|]. split; [eauto | discriminate].
    + destruct (read_local_file os w n) as [c|e].
      * intros [= <- <-].
        split; [reflexivity|]. split; [|discriminate].
        exists [file_content_message n c]. split; [reflexivity|].
        constructor; auto. apply file_content_message_is_file_context.
      * destruct (is_OSError e); [|discriminate]. intros [= <- <-].
        split; [reflexivity|]. split; [|discriminate].
        exists []. now rewrite app_nil_r.
  - intros [= <- <-]. split; [reflexivity|]. split; [|reflexivity].
    exists []. now rewrite app_nil_r.
Qed.

(** X28: The [ValueError] of [normalize_path] is not handled by [/add]: a path
    that [normalize_path] refuses makes the command raise [InvalidPath]
    instead of reporting it. *)
Theorem try_handle_add_command_invalid_path (w : World) (user_input : string)
    (e : exn) :
  startswith (lower (strip user_input)) "/add " = true ->
  normalize_path os (strip (drop 5 user_input)) = Raise e ->
  try_handle_add_command os isdir listing w user_input = Raise e /\
  is_InvalidPath e = true.
Proof.
  intros P N. unfold try_handle_add_command. rewrite P.
  change (String.length "/add ") with 5. rewrite N.
  split; [reflexivity|]. now apply normalize_path_raises_InvalidPath in N.
Qed.

End AddCommand.

Lemma try_handle_add_command_effect_witness :
  fs (append_message demo_world
        (file_content_message "/home/u/proj/d/a.py" "xxxxxxxxxx")) = fs demo_world /\
  (exists msgs,
      conversation_history
        (append_message demo_world
           (file_content_message "/home/u/proj/d/a.py" "xxxxxxxxxx"))
      = conversation_history demo_world ++ msgs /\
      Forall (fun msg => is_file_context msg = true) msgs) /\
  (true = false ->
   append_message demo_world
     (file_content_message "/home/u/proj/d/a.py" "xxxxxxxxxx") = demo_world).
Proof.
  apply (try_handle_add_command_effect demo_os (fun _ => false)
           (fun _ => Dir "" [] []) demo_world _ " /ADD d/a.py " true).
  reflexivity.
Defined.

Lemma try_handle_add_command_invalid_path_witness :
  try_handle_add_command demo_os (fun _ => false) (fun _ => Dir "" [] [])
    demo_world "/add /etc/passwd"
  = Raise (ValueError "Invalid path: /etc/passwd - Invalid path: /etc/passwd is outside workspace directory") /\
  is_InvalidPath (ValueError "Invalid path: /etc/passwd - Invalid path: /etc/passwd is outside workspace directory") = true.
Proof.
  apply (try_handle_add_command_invalid_path demo_os (fun _ => false)
           (fun _ => Dir "" [] []) demo_world "/add /etc/passwd"); reflexivity.
Defined.

(** ** PathSandbox: resolving twice *)

(** X29: A path that [normalize_path] returned is accepted again and returned
    unchanged, when the file system resolves it to itself. *)
Theorem normalize_path_idempotent (os : OS) (path_str r : string) :
  normalize_path os path_str = Ok r ->
  resolve os r = Ok r ->
  normalize_path os r = Ok r.
Proof.
  intros N R. apply normalize_path_ok in N. destruct N as (_ & ws & W & P).
  unfold normalize_path. now rewrite R, W, P.
Qed.

Lemma normalize_path_idempotent_witness :
  normalize_path demo_os "/home/u/proj/a.py" = Ok "/home/u/proj/a.py".
Proof.
  apply (normalize_path_idempotent demo_os "src/../a.py" "/home/u/proj/a.py");
    reflexivity.
Defined.
